(** * Screening assistant: the classifier and the bibliography filter

    A shallow embedding of [survey_classifier.py] and
    [generate_accepted_bib.py], with the properties of the design
    document stated and settled against it.

    Python text ([str]) is a sequence of Unicode code points; the library
    routines the two programs call ([re.search], [str.lower], [str.strip],
    the [csv] writer and reader, text-mode [open]) are modelled next to the
    functions that use them. *)

From Stdlib Require Import NArith String Ascii.
From stdpp Require Import gmap list sorting.

Local Open Scope N_scope.

(** ** Text *)

Abbreviation char := N.
Abbreviation str := (list N).

(** An ASCII literal of the source as Python text. *)
Definition pystr (s : string) : str :=
  map N_of_ascii (list_ascii_of_string s).
Arguments pystr s%_string.

Definition LF : char := 10.
Definition CR : char := 13.
Definition COMMA : char := 44.
Definition DQUOTE : char := 34.
(** U+017F LATIN SMALL LETTER LONG S, U+0131 DOTLESS I, U+0130 CAPITAL I
    WITH DOT ABOVE, U+212A KELVIN SIGN: the code points outside ASCII that
    Unicode case mapping relates to ASCII letters. *)
Definition LONG_S : char := 383.
Definition DOTLESS_I : char := 305.
Definition CAPITAL_I_DOT : char := 304.
Definition KELVIN : char := 8490.

Definition in_range (lo hi c : char) : bool := (lo <=? c) && (c <=? hi).

Definition is_ascii (c : char) : bool := c <? 128.
Definition is_ascii_upper (c : char) : bool := in_range 65 90 c.
Definition is_ascii_lower (c : char) : bool := in_range 97 122 c.
Definition is_ascii_digit (c : char) : bool := in_range 48 57 c.

(** [str.isspace] on one code point, which is also [\s] of a text pattern
    and what [str.strip()] removes. *)
Definition is_space (c : char) : bool :=
  in_range 9 13 c || in_range 28 32 c || (c =? 133) || (c =? 160)
  || (c =? 5760) || in_range 8192 8202 c || (c =? 8232) || (c =? 8233)
  || (c =? 8239) || (c =? 8287) || (c =? 12288).

(** ASCII case folding: the letter-case changes the parser is insensitive
    to are measured with it. *)
Definition ascii_lower (c : char) : char :=
  if is_ascii_upper c then c + 32 else c.

(** [str.lower()], one code point at a time. The images of ASCII, of
    U+0130 and of U+212A are the only ones that contain ASCII; every other
    code point is mapped to text outside ASCII, represented here by the code
    point itself. The programs only compare lowered text with ASCII words. *)
Definition py_lower_char (c : char) : str :=
  if is_ascii_upper c then [c + 32]
  else if c =? CAPITAL_I_DOT then [105; 775]
  else if c =? KELVIN then [107]
  else [c].

Definition py_lower (s : str) : str := mbind py_lower_char s.

Fixpoint lstrip (s : str) : str :=
  match s with
  | c :: s' => if is_space c then lstrip s' else s
  | [] => []
  end.

Definition rstrip (s : str) : str := reverse (lstrip (reverse s)).

(** [str.strip()] *)
Definition py_strip (s : str) : str := rstrip (lstrip s).

(** ** Exceptions *)

Inductive PyExc :=
| FileNotFoundError
| PermissionError
| TypeError
| AttributeError
| IndexError
| KeyError (k : str)
| ZeroDivisionError
| ValueError
| CsvError
| ServiceError.

Inductive result (A : Type) :=
| Ok (a : A)
| Raise (e : PyExc).
Arguments Ok {A} a.
Arguments Raise {A} e.

Definition bind {A B} (x : result A) (f : A -> result B) : result B :=
  match x with
  | Ok a => f a
  | Raise e => Raise e
  end.

Notation "'let*' x ':=' c 'in' k" := (bind c (fun x => k))
  (at level 10, x pattern, c at level 100, k at level 200).

(** [try: body except Exception: handler] for a body without other effects. *)
Definition try_except {A} (body : result A) (handler : PyExc -> A) : A :=
  match body with
  | Ok a => a
  | Raise e => handler e
  end.

(** ** Regular expressions: the fragment of [re] the parser uses *)

Module Sre.

Record flags := Flags { IGNORECASE : bool; DOTALL : bool }.

Inductive atom :=
| Lit (c : char)
| CategorySpace
| CategoryDigit
| AnyChar.

Inductive regex :=
| Eps
| Atom (a : atom)
| Star (a : atom)
| Plus (a : atom)
| Seq (r1 r2 : regex)
| Alt (r1 r2 : regex)
| Group (n : nat) (r : regex).

Fixpoint literal (s : str) : regex :=
  match s with
  | [] => Eps
  | c :: s' => Seq (Atom (Lit c)) (literal s')
  end.

(** The simple lower-case mapping the engine applies under [IGNORECASE],
    exact wherever the image is an ASCII letter, U+0131 or U+017F: the
    images a pattern of ASCII text is compared with. *)
Definition unicode_tolower (c : char) : char :=
  if is_ascii_upper c then c + 32
  else if c =? CAPITAL_I_DOT then 105
  else if c =? KELVIN then 107
  else c.

(** Lower-case letters that share their upper case with the key
    ([_ignorecase_fixes] of the pattern compiler), for ASCII keys. *)
Definition ignorecase_fixes (lo : char) : list char :=
  if lo =? 105 then [DOTLESS_I]
  else if lo =? 115 then [LONG_S]
  else [].

Definition lit_match (fl : flags) (p c : char) : bool :=
  if IGNORECASE fl then
    let lo := unicode_tolower p in
    let c' := unicode_tolower c in
    (c' =? lo) || existsb (N.eqb c') (ignorecase_fixes lo)
  else c =? p.

Section Engine.
(** [\d] is the decimal-digit category of the Unicode database; its
    members outside ASCII are a table the programs do not carry. *)
Variable nd : char -> bool.
Variable fl : flags.

Definition is_decimal (c : char) : bool :=
  if is_ascii c then is_ascii_digit c else nd c.

Definition atom_match (a : atom) (c : char) : bool :=
  match a with
  | Lit p => lit_match fl p c
  | CategorySpace => is_space c
  | CategoryDigit => is_decimal c
  | AnyChar => DOTALL fl || negb (c =? LF)
  end.

(** Greedy repetition of one atom, longest first, giving back one
    character at a time while the rest of the pattern fails. *)
Fixpoint repeat_greedy {A} (a : atom) (s : str) (k : str -> option A)
  : option A :=
  match s with
  | c :: s' =>
      if atom_match a c then
        match repeat_greedy a s' k with
        | Some m => Some m
        | None => k s
        end
      else k s
  | [] => k s
  end.

(** Backtracking match of [r] at the head of [s]; [k] is the rest of the
    pattern, applied to the text left over and to the groups bound. *)
Fixpoint match_here (r : regex) (s : str) (caps : gmap nat str)
    (k : str -> gmap nat str -> option (gmap nat str))
  : option (gmap nat str) :=
  match r with
  | Eps => k s caps
  | Atom a =>
      match s with
      | c :: s' => if atom_match a c then k s' caps else None
      | [] => None
      end
  | Star a => repeat_greedy a s (fun s' => k s' caps)
  | Plus a =>
      match s with
      | c :: s' =>
          if atom_match a c
          then repeat_greedy a s' (fun s'' => k s'' caps)
          else None
      | [] => None
      end
  | Seq r1 r2 =>
      match_here r1 s caps (fun s' caps' => match_here r2 s' caps' k)
  | Alt r1 r2 =>
      match match_here r1 s caps k with
      | Some m => Some m
      | None => match_here r2 s caps k
      end
  | Group n r1 =>
      match_here r1 s caps (fun s' caps' =>
        k s' (<[n := take (length s - length s') s]> caps'))
  end.

(** [re.search]: the match at the leftmost position that has one. *)
Fixpoint search (r : regex) (s : str) : option (gmap nat str) :=
  match match_here r s ∅ (fun _ caps => Some caps) with
  | Some m => Some m
  | None =>
      match s with
      | [] => None
      | _ :: s' => search r s'
      end
  end.
End Engine.

End Sre.

(** ** The Response Parser *)

(** [r'Status:\s*(accepted|rejected|not-sure)'] *)
Definition status_pattern : Sre.regex :=
  Sre.Seq (Sre.literal (pystr "Status:"))
    (Sre.Seq (Sre.Star Sre.CategorySpace)
       (Sre.Group 1
          (Sre.Alt (Sre.literal (pystr "accepted"))
             (Sre.Alt (Sre.literal (pystr "rejected"))
                (Sre.literal (pystr "not-sure")))))).

(** [r'Criteria:\s*((CI|CX)\d+)'] *)
Definition criteria_pattern : Sre.regex :=
  Sre.Seq (Sre.literal (pystr "Criteria:"))
    (Sre.Seq (Sre.Star Sre.CategorySpace)
       (Sre.Group 1
          (Sre.Seq
             (Sre.Group 2
                (Sre.Alt (Sre.literal (pystr "CI")) (Sre.literal (pystr "CX"))))
             (Sre.Plus Sre.CategoryDigit)))).

(** [r'Reasoning:\s*( .* )'], searched with [re.DOTALL] *)
Definition reasoning_pattern : Sre.regex :=
  Sre.Seq (Sre.literal (pystr "Reasoning:"))
    (Sre.Seq (Sre.Star Sre.CategorySpace)
       (Sre.Group 1 (Sre.Star Sre.AnyChar))).

Definition no_flags : Sre.flags := Sre.Flags false false.
Definition re_IGNORECASE : Sre.flags := Sre.Flags true false.
Definition re_DOTALL : Sre.flags := Sre.Flags false true.

(** The three-key dictionary an evaluation is. *)
Record Evaluation := mkEvaluation {
  ev_status : str;
  ev_criteria : str;
  ev_reasoning : str
}.

Definition parse_error_evaluation : Evaluation :=
  mkEvaluation (pystr "not-sure") (pystr "parse-error")
    (pystr "Response parsing failed").

Section Classifier.
Variable nd : char -> bool.

(** [re.search(pattern, string, flags)]; a [string] that is not text
    ([None] here) makes it raise [TypeError]. *)
Definition re_search (pattern : Sre.regex) (string : option str)
    (fl : Sre.flags) : result (option (gmap nat str)) :=
  match string with
  | Some s => Ok (Sre.search nd fl pattern s)
  | None => Raise TypeError
  end.

(** [m.group(n).f()]: a group that took no part in the match is [None],
    which has no string methods. *)
Definition group_then (m : gmap nat str) (n : nat) (f : str -> str)
  : result str :=
  match m !! n with
  | Some g => Ok (f g)
  | None => Raise AttributeError
  end.

Definition parse_response (response_text : option str) : Evaluation :=
  try_except
    (let* status_match :=
       re_search status_pattern response_text re_IGNORECASE in
     let* criteria_match :=
       re_search criteria_pattern response_text no_flags in
     let* reasoning_match :=
       re_search reasoning_pattern response_text re_DOTALL in
     let* status :=
       match status_match with
       | Some m => group_then m 1 py_lower
       | None => Ok (pystr "not-sure")
       end in
     let* criteria :=
       match criteria_match with
       | Some m => group_then m 1 id
       | None => Ok (pystr "not-specified")
       end in
     let* reasoning :=
       match reasoning_match with
       | Some m => group_then m 1 py_strip
       | None => Ok []
       end in
     Ok (mkEvaluation status criteria reasoning))
    (fun _ => parse_error_evaluation).

(** *** The oracle client *)

(** One call of [client.chat.completions.create]: the model, the fixed
    system message and the user prompt; the temperature is the constant
    [0.0]. *)
Record Request := mkRequest {
  req_model : str;
  req_system : str;
  req_user : str
}.

(** What a call gives: it raises, or it returns a response whose
    [choices] each carry a [message.content], text or [None]. *)
Inductive Outcome :=
| Failed (e : PyExc)
| Completed (choices : list (option str)).

(** The service is outside the program: any state, any answers. *)
Variable Service : Type.
Variable chat_completions_create : Service -> Request -> Service * Outcome.

(** The module-level [client], with the requests it has sent. *)
Record Client := mkClient {
  service : Service;
  sent : list Request
}.

Definition system_message : str :=
  pystr "You are a systematic review assistant. Use the exact response format.".

(** The f-string of [evaluate_entry]. *)
Definition prompt (criteria_content title abstract : str) : str :=
  pystr "Evaluate the paper based on these criteria:" ++ [LF; LF]
  ++ criteria_content ++ [LF; LF]
  ++ pystr "Title: " ++ title ++ [LF]
  ++ pystr "Abstract: " ++ abstract ++ [LF; LF]
  ++ pystr "Respond STRICTLY in this format:" ++ [LF]
  ++ pystr "Status: [accepted/rejected/not-sure]" ++ [LF]
  ++ pystr "Criteria: [CIn/CXn/not-applicable]" ++ [LF]
  ++ pystr "Reasoning: [Brief explanation linking to specific criteria]".

Definition api_error_evaluation : Evaluation :=
  mkEvaluation (pystr "not-sure") (pystr "api-error")
    (pystr "Evaluation failed").

Definition evaluate_entry (title abstract criteria_content model_name : str)
    (c : Client) : Client * Evaluation :=
  let request :=
    mkRequest model_name system_message
      (prompt criteria_content title abstract) in
  let '(svc, outcome) := chat_completions_create (service c) request in
  (mkClient svc (sent c ++ [request]),
   try_except
     (let* choices :=
        match outcome with
        | Completed choices => Ok choices
        | Failed e => Raise e
        end in
      let* content :=
        match choices !! 0%nat with
        | Some content => Ok content
        | None => Raise IndexError
        end in
      Ok (parse_response content))
     (fun _ => api_error_evaluation)).

(** *** The evaluation pipeline *)

(** [entry.get(key, default)] on a bibliography entry. *)
Definition dict_get (entry : gmap str str) (key default : str) : str :=
  match entry !! key with
  | Some v => v
  | None => default
  end.

(** One row of the results. *)
Record Verdict := mkVerdict {
  citekey : str;
  title : str;
  status : str;
  criteria : str;
  reasoning : str
}.

(** The body of the loop of [process_entries]: evaluate, append. The
    progress ratio [idx / total_entries] is only computed here, where
    [total_entries] is at least one. *)
Definition process_entry (criteria_content model_name : str)
    (acc : Client * list Verdict) (entry : gmap str str)
  : Client * list Verdict :=
  let '(c, results) := acc in
  let '(c', evaluation) :=
    evaluate_entry (dict_get entry (pystr "title") [])
      (dict_get entry (pystr "abstract") [])
      criteria_content model_name c in
  (c',
   results ++
     [mkVerdict (dict_get entry (pystr "ID") (pystr "N/A"))
        (dict_get entry (pystr "title") [])
        (ev_status evaluation) (ev_criteria evaluation)
        (ev_reasoning evaluation)]).

Definition process_entries (entries : list (gmap str str))
    (criteria_content model_name : str) (c : Client)
  : Client * list Verdict :=
  foldl (process_entry criteria_content model_name) (c, []) entries.
End Classifier.

Arguments mkClient {Service} _ _.
Arguments service {Service} _.
Arguments sent {Service} _.

(** ** Logging *)

(** What the two tools log, as far as the properties below need it: the
    error records of the loaders, the writer and the pipelines, the record
    of the table written, and the lines of the statistics report, whose
    percentage is kept as count and total. The records of the parser and of
    the oracle client, and the progress, count and timing records, are left
    out. *)
Inductive LogRecord :=
| LogInfo (text : str)
| LogError (text : str)
| LogException (text : str) (e : PyExc)
| LogShare (label : str) (count total : nat).

(** ** The statistics reporter *)

(** [count / total] on integers: the quotient, kept as the fraction. *)
Definition true_div (count total : nat) : result (nat * nat) :=
  match total with
  | O => Raise ZeroDivisionError
  | S _ => Ok (count, total)
  end.

Definition ascii_upper (c : char) : char :=
  if is_ascii_lower c then c - 32 else c.

(** [str.capitalize()] on ASCII text. *)
Definition py_capitalize (s : str) : str :=
  match s with
  | [] => []
  | c :: s' => ascii_upper c :: py_lower s'
  end.

(** [d[key]] *)
Definition getitem {V} (d : gmap str V) (key : str) : result V :=
  match d !! key with
  | Some v => Ok v
  | None => Raise (KeyError key)
  end.

(** Order of text, code point by code point. *)
Fixpoint str_compare (a b : str) : comparison :=
  match a, b with
  | [], [] => Eq
  | [], _ :: _ => Lt
  | _ :: _, [] => Gt
  | x :: a', y :: b' =>
      match N.compare x y with
      | Eq => str_compare a' b'
      | c => c
      end
  end.

(** Order of the [(criteria, count)] pairs that [sorted] uses. *)
Definition item_le (x y : str * nat) : Prop :=
  match str_compare x.1 y.1 with
  | Lt => True
  | Eq => (x.2 <= y.2)%nat
  | Gt => False
  end.

Global Instance item_le_dec x y : Decision (item_le x y).
Proof.
  unfold item_le. destruct (str_compare x.1 y.1); apply _.
Defined.

Definition initial_counts : gmap str nat :=
  <[pystr "accepted" := O]>
    (<[pystr "rejected" := O]> (<[pystr "not-sure" := O]> ∅)).

(** The body of the counting loop. *)
Definition count_item (acc : result (gmap str nat * gmap str nat))
    (item : Verdict) : result (gmap str nat * gmap str nat) :=
  let* acc := acc in
  let '(counts, criteria_counts) := acc in
  let* n := getitem counts (status item) in
  Ok (<[status item := S n]> counts,
      <[criteria item := S (default O (criteria_counts !! criteria item))]>
        criteria_counts).

(** A loop whose body logs one record or raises. *)
Fixpoint for_each {A} (body : A -> result LogRecord) (xs : list A)
  : list LogRecord * result unit :=
  match xs with
  | [] => ([], Ok tt)
  | x :: xs' =>
      match body x with
      | Raise e => ([], Raise e)
      | Ok l => let '(ls, r) := for_each body xs' in (l :: ls, r)
      end
  end.

Definition calculate_statistics (results : list Verdict)
  : list LogRecord * result unit :=
  match foldl count_item (Ok (initial_counts, ∅)) results with
  | Raise e => ([], Raise e)
  | Ok (counts, criteria_counts) =>
      let total := length results in
      let '(log1, r1) :=
        for_each
          (fun status =>
             let* n := getitem counts status in
             let* _ := true_div n total in
             Ok (LogShare (py_capitalize status) n total))
          [pystr "accepted"; pystr "rejected"; pystr "not-sure"] in
      match r1 with
      | Raise e => (LogInfo (LF :: pystr "Final Results:") :: log1, Raise e)
      | Ok _ =>
          let '(log2, r2) :=
            for_each
              (fun '(criteria, count) =>
                 let* _ := true_div count total in
                 Ok (LogShare criteria count total))
              (merge_sort item_le (map_to_list criteria_counts)) in
          (LogInfo (LF :: pystr "Final Results:") :: log1
             ++ LogInfo (LF :: pystr "Criteria Breakdown:") :: log2, r2)
      end
  end.

(** ** Text files *)

(** Universal newlines: what reading a file opened in text mode without
    [newline=''] does to its content. *)
Fixpoint translate_newlines (s : str) : str :=
  match s with
  | [] => []
  | c :: s' =>
      if c =? CR then
        match s' with
        | c' :: s'' =>
            if c' =? LF then LF :: translate_newlines s''
            else LF :: translate_newlines s'
        | [] => [LF]
        end
      else c :: translate_newlines s'
  end.

(** Iterating over a text file: the lines, each with its [LF]; [cur] is
    the line being read, backwards. *)
Fixpoint lines_from (cur : str) (s : str) : list str :=
  match s with
  | [] => match cur with [] => [] | _ => [reverse cur] end
  | c :: s' =>
      if c =? LF then reverse (c :: cur) :: lines_from [] s'
      else lines_from (c :: cur) s'
  end.

Definition text_lines (content : str) : list str :=
  lines_from [] (translate_newlines content).



(** ** The csv module, [excel] dialect *)

(** The writer and the reader of the [csv] module with the default
    dialect: comma, double quote, doubled quotes inside quoted fields,
    [CR LF] after each record, quoting only where needed, not strict. A
    file is its text: the encoding is left out, and so is the limit the
    reader puts on the length of a field. *)
Module Csv.

(** *** Writer *)

Definition special (c : char) : bool :=
  (c =? COMMA) || (c =? DQUOTE) || (c =? CR) || (c =? LF).

Definition escape (c : char) : str :=
  if c =? DQUOTE then [DQUOTE; DQUOTE] else [c].

(** One field under [QUOTE_MINIMAL] with [doublequote]: quoted when it
    holds the delimiter, the quote character or a character of the line
    terminator. *)
Definition write_field (field : str) : str :=
  if existsb special field
  then DQUOTE :: mbind escape field ++ [DQUOTE]
  else field.

Fixpoint join_fields (fields : list str) : str :=
  match fields with
  | [] => []
  | [f] => write_field f
  | f :: fs => write_field f ++ COMMA :: join_fields fs
  end.

(** [writer.writerow]: a record that would be an empty line, a single
    empty field, is written as a pair of quotes. *)
Definition writerow (fields : list str) : str :=
  match fields with
  | [[]] => [DQUOTE; DQUOTE; CR; LF]
  | _ => join_fields fields ++ [CR; LF]
  end.

(** *** Reader *)

Inductive state :=
| START_RECORD
| START_FIELD
| IN_FIELD
| IN_QUOTED_FIELD
| QUOTE_IN_QUOTED_FIELD
| EAT_CRNL.

Global Instance state_eq_dec : EqDecision state.
Proof. solve_decision. Defined.

Record reader := mkReader {
  st : state;
  field : str;
  fields : list str
}.

(** A character of the line, or the end of the line. *)
Inductive input :=
| Ch (c : char)
| EOL.

Definition is_newline (i : input) : bool :=
  match i with
  | Ch c => (c =? LF) || (c =? CR)
  | EOL => true
  end.

Definition after_newline (i : input) : state :=
  match i with
  | EOL => START_RECORD
  | Ch _ => EAT_CRNL
  end.

Definition parse_save_field (r : reader) : reader :=
  mkReader (st r) [] (fields r ++ [field r]).

Definition parse_add_char (r : reader) (c : char) : reader :=
  mkReader (st r) (field r ++ [c]) (fields r).

Definition set_state (r : reader) (s : state) : reader :=
  mkReader s (field r) (fields r).

Definition start_field (r : reader) (i : input) : result reader :=
  if is_newline i then Ok (set_state (parse_save_field r) (after_newline i))
  else match i with
       | Ch c =>
           if c =? DQUOTE then Ok (set_state r IN_QUOTED_FIELD)
           else if c =? COMMA then Ok (parse_save_field r)
           else Ok (set_state (parse_add_char r c) IN_FIELD)
       | EOL => Ok r
       end.

(** The transition of the parser on one input; the dialect has no escape
    character and is not strict. *)
Definition parse_process_char (r : reader) (i : input) : result reader :=
  match st r with
  | START_RECORD =>
      match i with
      | EOL => Ok r
      | Ch c =>
          if (c =? LF) || (c =? CR) then Ok (set_state r EAT_CRNL)
          else start_field (set_state r START_FIELD) i
      end
  | START_FIELD => start_field r i
  | IN_FIELD =>
      if is_newline i then Ok (set_state (parse_save_field r) (after_newline i))
      else match i with
           | Ch c =>
               if c =? COMMA
               then Ok (set_state (parse_save_field r) START_FIELD)
               else Ok (parse_add_char r c)
           | EOL => Ok r
           end
  | IN_QUOTED_FIELD =>
      match i with
      | EOL => Ok r
      | Ch c =>
          if c =? DQUOTE then Ok (set_state r QUOTE_IN_QUOTED_FIELD)
          else Ok (parse_add_char r c)
      end
  | QUOTE_IN_QUOTED_FIELD =>
      match i with
      | Ch c =>
          if c =? DQUOTE
          then Ok (set_state (parse_add_char r c) IN_QUOTED_FIELD)
          else if c =? COMMA
          then Ok (set_state (parse_save_field r) START_FIELD)
          else if is_newline i
               then Ok (set_state (parse_save_field r) (after_newline i))
          else Ok (set_state (parse_add_char r c) IN_FIELD)
      | EOL => Ok (set_state (parse_save_field r) START_RECORD)
      end
  | EAT_CRNL =>
      match i with
      | EOL => Ok (set_state r START_RECORD)
      | Ch c => if (c =? LF) || (c =? CR) then Ok r else Raise CsvError
      end
  end.

Fixpoint feed (r : reader) (line : list input) : result reader :=
  match line with
  | [] => Ok r
  | i :: line' =>
      let* r' := parse_process_char r i in
      feed r' line'
  end.

Definition parse_reset : reader := mkReader START_RECORD [] [].

(** The records the reader yields from the lines of a file, and the
    exception that ends the iteration early, if one does. A record is
    complete when the parser is back at the start of a record after a line;
    at the end of the input an open record is yielded as it stands. *)
Fixpoint records (r : reader) (lines : list str)
  : list (list str) * option PyExc :=
  match lines with
  | [] =>
      if negb (bool_decide (field r = []))
         || bool_decide (st r = IN_QUOTED_FIELD)
      then ([fields (parse_save_field r)], None)
      else ([], None)
  | line :: rest =>
      match feed r (map Ch line ++ [EOL]) with
      | Raise e => ([], Some e)
      | Ok r' =>
          if bool_decide (st r' = START_RECORD)
          then let '(rows, e) := records parse_reset rest in
               (fields r' :: rows, e)
          else records r' rest
      end
  end.

Definition reader_rows (lines : list str) : list (list str) * option PyExc :=
  records parse_reset lines.

(** *** DictWriter and DictReader *)

(** [dict(zip(fieldnames, row))], then [restval], which is [None], for the
    field names the row is too short for. Later duplicates of a name win.
    The surplus of a longer row goes under the key [None], which no field
    name can be, and is not kept. *)
Definition row_dict (fieldnames : list str) (row : list str)
  : gmap str (option str) :=
  foldl (fun d kv => <[kv.1 := kv.2]> d) ∅
    (zip fieldnames
       (map Some row ++ replicate (length fieldnames - length row) None)).

(** The rows of a [DictReader]: the first record gives the field names,
    empty records after it are skipped. *)
Definition dict_reader (lines : list str)
  : list (gmap str (option str)) * option PyExc :=
  match reader_rows lines with
  | ([], e) => ([], e)
  | (fieldnames :: rows, e) =>
      (map (row_dict fieldnames)
         (filter (fun row => row ≠ []) rows), e)
  end.

End Csv.

Definition fieldnames : list str :=
  [pystr "citekey"; pystr "title"; pystr "status"; pystr "criteria";
   pystr "reasoning"].

(** The values of a results dictionary in the order of the field names
    ([DictWriter._dict_to_list]; the dictionaries have exactly these
    keys). *)
Definition verdict_fields (v : Verdict) : list str :=
  [citekey v; title v; status v; criteria v; reasoning v].

(** What [write_results_to_csv] puts in the file, which it opens with
    [newline=''], so as it is. *)
Definition results_csv_text (results : list Verdict) : str :=
  Csv.writerow fieldnames
  ++ mbind (fun v => Csv.writerow (verdict_fields v)) results.

(** ** The file system and the two tools *)

(** The files by path, and the paths that cannot be opened. *)
Record World := mkWorld {
  files : gmap str str;
  denied : gset str
}.

Definition open_read (w : World) (path : str) : result str :=
  if bool_decide (path ∈ denied w) then Raise PermissionError
  else match files w !! path with
       | Some content => Ok content
       | None => Raise FileNotFoundError
       end.

(** [open(path, 'w')] and the writes until the file is closed. *)
Definition open_write (w : World) (path content : str) : World * result unit :=
  if bool_decide (path ∈ denied w) then (w, Raise PermissionError)
  else (mkWorld (<[path := content]> (files w)) (denied w), Ok tt).

(** A step of a tool: it changes the state, logs, and returns or raises. *)
Definition Tool (S A : Type) : Type := S -> S * list LogRecord * result A.

Definition lift {S A} (r : result A) : Tool S A := fun s => (s, [], r).

Definition logging {S} (l : list LogRecord) : Tool S unit :=
  fun s => (s, l, Ok tt).

Definition and_then {S A B} (m : Tool S A) (f : A -> Tool S B) : Tool S B :=
  fun s =>
    let '(s1, log1, r) := m s in
    match r with
    | Raise e => (s1, log1, Raise e)
    | Ok a => let '(s2, log2, r2) := f a s1 in (s2, log1 ++ log2, r2)
    end.

Notation "'do' x '<-' m ';' k" := (and_then m (fun x => k))
  (at level 10, x name, m at level 100, k at level 200).

(** [try: body except Exception as e: logging.error(...e...); raise] *)
Definition log_and_reraise {S A} (body : Tool S A) (text : str) : Tool S A :=
  fun s =>
    let '(s1, log1, r) := body s in
    match r with
    | Raise e => (s1, log1 ++ [LogException text e], Raise e)
    | Ok a => (s1, log1, Ok a)
    end.

(** The status the interpreter exits with when the script ends: normally,
    or with an exception nothing caught. *)
Definition exit_status {A} (r : result A) : nat :=
  match r with
  | Ok _ => 0%nat
  | Raise _ => 1%nat
  end.

Section Tools.
Variable nd : char -> bool.
Variable Service : Type.
Variable chat_completions_create : Service -> Request -> Service * Outcome.
(** [bibtexparser.load] on the text of a file and [bibtexparser.dump]. *)
Variable bibtex_load : str -> result (list (gmap str str)).
Variable bibtex_dump : list (gmap str str) -> str.
(** [os.getenv("OPENAI_MODEL", "gpt-4o-mini")], read when the module is
    loaded. *)
Variable MODEL_NAME : str.

(** *** Tool 1: the classifier *)

Record Machine := mkMachine {
  world : World;
  client : Client Service
}.

Definition load_criteria (criteria_path : str) : Tool Machine str :=
  fun m =>
    match open_read (world m) criteria_path with
    | Ok content => (m, [], Ok (translate_newlines content))
    | Raise FileNotFoundError =>
        (m, [LogError (pystr "Criteria file not found: " ++ criteria_path)],
         Raise FileNotFoundError)
    | Raise e =>
        (m, [LogException (pystr "Error reading criteria file: ") e], Raise e)
    end.

Definition load_bib_entries (input_path : str)
  : Tool Machine (list (gmap str str)) :=
  fun m =>
    match
      (let* content := open_read (world m) input_path in
       bibtex_load (translate_newlines content))
    with
    | Ok entries => (m, [], Ok entries)
    | Raise FileNotFoundError =>
        (m, [LogError (pystr "Input file not found: " ++ input_path)],
         Raise FileNotFoundError)
    | Raise e =>
        (m, [LogException (pystr "Error parsing BibTeX file: ") e], Raise e)
    end.

Definition write_results_to_csv (results : list Verdict) (output_path : str)
  : Tool Machine unit :=
  log_and_reraise
    (do _ <- (fun m =>
                let '(w, r) :=
                  open_write (world m) output_path (results_csv_text results) in
                (mkMachine w (client m), [], r));
     logging
       [LogInfo (pystr "Results successfully written to " ++ output_path)])
    (pystr "Error writing CSV file: ").

Definition process_bib (input_path output_path criteria_path : str)
  : Tool Machine unit :=
  log_and_reraise
    (do criteria_content <- load_criteria criteria_path;
     do entries <- load_bib_entries input_path;
     do results <- (fun m =>
                      let '(c, results) :=
                        process_entries nd Service chat_completions_create
                          entries criteria_content MODEL_NAME
                          (client m) in
                      (mkMachine (world m) c, [], Ok results));
     do _ <- write_results_to_csv results output_path;
     (fun m => let '(log, r) := calculate_statistics results in (m, log, r)))
    (pystr "Processing failed: ").

Record ClassifierArgs := mkClassifierArgs {
  arg_input : str;
  arg_output : str;
  arg_criteria : str
}.

(** The script of [survey_classifier.py] after the arguments are parsed:
    the handler logs and does not raise. *)
Definition survey_classifier_main (args : ClassifierArgs) : Tool Machine unit :=
  fun m =>
    let '(m1, log1, r) :=
      process_bib (arg_input args) (arg_output args) (arg_criteria args) m in
    match r with
    | Raise e =>
        (m1, log1 ++ [LogException (pystr "Fatal error occurred: ") e], Ok tt)
    | Ok _ => (m1, log1, Ok tt)
    end.

(** *** Tool 2: the bibliography filter *)

(** The body of the loop over the rows of the results. *)
Definition add_accepted (acc : result (gset (option str)))
    (row : gmap str (option str)) : result (gset (option str)) :=
  let* accepted_keys := acc in
  let* status := getitem row (pystr "status") in
  match status with
  | None => Raise AttributeError
  | Some status =>
      if bool_decide (py_lower status = pystr "accepted")
      then
        let* key := getitem row (pystr "citekey") in
        Ok ({[key]} ∪ accepted_keys)
      else Ok accepted_keys
  end.

(** The loop, over the rows the reader yields before it stops or fails. *)
Definition load_accepted_keys
    (reader : list (gmap str (option str)) * option PyExc)
  : result (gset (option str)) :=
  let* accepted_keys := foldl add_accepted (Ok ∅) reader.1 in
  match reader.2 with
  | Some e => Raise e
  | None => Ok accepted_keys
  end.

Definition filter_accepted (accepted_keys : gset (option str))
    (entries : list (gmap str str)) : list (gmap str str) :=
  filter (fun entry => Some (dict_get entry (pystr "ID") []) ∈ accepted_keys)
    entries.

Definition create_accepted_bib (original_bib results_csv output_file : str)
  : Tool World unit :=
  log_and_reraise
    (do csv_content <- (fun w => (w, [], open_read w results_csv));
     do accepted_keys <-
       lift (load_accepted_keys (Csv.dict_reader (text_lines csv_content)));
     do bib_content <- (fun w => (w, [], open_read w original_bib));
     do entries <- lift (bibtex_load (translate_newlines bib_content));
     (fun w =>
        let '(w', r) :=
          open_write w output_file
            (bibtex_dump (filter_accepted accepted_keys entries)) in
        (w', [], r)))
    (pystr "Processing failed: ").

Record FilterArgs := mkFilterArgs {
  arg_original : str;
  arg_results : str;
  arg_accepted : str
}.

(** The script of [generate_accepted_bib.py] after the arguments are
    parsed: the call, with nothing around it. *)
Definition generate_accepted_bib_main (args : FilterArgs) : Tool World unit :=
  create_accepted_bib (arg_original args) (arg_results args)
    (arg_accepted args).
End Tools.

(** ** Reading the pipeline *)

(** The request an entry is evaluated with. *)
Definition request_of (criteria_content model_name : str)
    (entry : gmap str str) : Request :=
  mkRequest model_name system_message
    (prompt criteria_content
       (default [] (entry !! pystr "title"))
       (default [] (entry !! pystr "abstract"))).

(** The verdict of an entry whose evaluation is [ev]. *)
Definition verdict_of (entry : gmap str str) (ev : Evaluation) : Verdict :=
  mkVerdict
    (default (pystr "N/A") (entry !! pystr "ID"))
    (default [] (entry !! pystr "title"))
    (ev_status ev) (ev_criteria ev) (ev_reasoning ev).

(** A service for examples: its state counts the calls; the first call
    fails, the second answers without text, the later ones accept. *)
Definition example_service (n : nat) (_ : Request) : nat * Outcome :=
  (S n,
   match n with
   | O => Failed ServiceError
   | S O => Completed [None]
   | _ =>
       Completed
         [Some (pystr "Status: accepted" ++ [LF] ++ pystr "Criteria: CI3"
                ++ [LF] ++ pystr "Reasoning: fits well")]
   end).

(** A complete entry with the given key. *)
Definition example_entry (key : string) : gmap str str :=
  <[pystr "ID" := pystr key]>
    (<[pystr "title" := pystr "A title"]>
       (<[pystr "abstract" := pystr "An abstract"]> ∅)).

Definition example_entries : list (gmap str str) :=
  [example_entry "A"; example_entry "B"; example_entry "C"].

(** For the examples: a table of decimal digits with none outside
    ASCII. *)
Definition no_other_digits (c : char) : bool := false.

(** A file system without files. *)
Definition empty_world : World := mkWorld ∅ ∅.

(** ** What the patterns denote *)

(** [matches nd fl r s caps caps']: the pattern [r] can consume exactly
    [s], turning the groups bound so far from [caps] into [caps']. *)
Inductive matches (nd : char -> bool) (fl : Sre.flags)
  : Sre.regex -> str -> gmap nat str -> gmap nat str -> Prop :=
| matches_eps caps :
    matches nd fl Sre.Eps [] caps caps
| matches_atom a x caps :
    Sre.atom_match nd fl a x = true ->
    matches nd fl (Sre.Atom a) [x] caps caps
| matches_star a xs caps :
    Forall (fun x => Sre.atom_match nd fl a x = true) xs ->
    matches nd fl (Sre.Star a) xs caps caps
| matches_plus a x xs caps :
    Sre.atom_match nd fl a x = true ->
    Forall (fun x => Sre.atom_match nd fl a x = true) xs ->
    matches nd fl (Sre.Plus a) (x :: xs) caps caps
| matches_seq r1 r2 s1 s2 caps caps' caps'' :
    matches nd fl r1 s1 caps caps' ->
    matches nd fl r2 s2 caps' caps'' ->
    matches nd fl (Sre.Seq r1 r2) (s1 ++ s2) caps caps''
| matches_alt_l r1 r2 s caps caps' :
    matches nd fl r1 s caps caps' ->
    matches nd fl (Sre.Alt r1 r2) s caps caps'
| matches_alt_r r1 r2 s caps caps' :
    matches nd fl r2 s caps caps' ->
    matches nd fl (Sre.Alt r1 r2) s caps caps'
| matches_group n r s caps caps' :
    matches nd fl r s caps caps' ->
    matches nd fl (Sre.Group n r) s caps (<[n := s]> caps').

(** [found nd fl r text]: the pattern occurs somewhere in the text. *)
Definition found (nd : char -> bool) (fl : Sre.flags) (r : Sre.regex)
    (text : str) : Prop :=
  exists pre mid post caps,
    text = pre ++ mid ++ post /\ matches nd fl r mid ∅ caps.

(** [spells fl word s]: [s] is the literal [word], up to letter case when
    the flags ignore case. *)
Definition spells (fl : Sre.flags) (word s : str) : Prop :=
  Forall2 (fun p x => Sre.lit_match fl p x = true) word s.

(** The three values of a status. *)
Definition status_values : list str :=
  [pystr "accepted"; pystr "rejected"; pystr "not-sure"].


(** A criteria code: the keyword as written, any white space, C (67),
    then I (73) or X (88), then at least one decimal digit. *)
Definition has_criteria_code (nd : char -> bool) (text : str) : Prop :=
  exists pre blank kind digits post,
    text = pre ++ pystr "Criteria:" ++ blank ++ (67 :: kind :: digits) ++ post
    /\ Forall (fun c => is_space c = true) blank
    /\ (kind = 73 \/ kind = 88)
    /\ digits <> []
    /\ Forall (fun c => Sre.is_decimal nd c = true) digits.

(** The reasoning marker: the keyword as written. *)
Definition has_reasoning_marker (text : str) : Prop :=
  exists pre post, text = pre ++ pystr "Reasoning:" ++ post.




(** Two texts that differ at most in the case of ASCII letters. *)
Definition case_variant (s s' : str) : Prop :=
  ascii_lower <$> s = ascii_lower <$> s'.

(** Groups that differ at most in the case of ASCII letters. *)
Definition caps_variant (caps caps' : gmap nat str) : Prop :=
  forall n : nat, option_Forall2 case_variant (caps !! n) (caps' !! n).

(** A character of the three status words: a lower-case ASCII letter
    other than i and k, or the hyphen. Under [IGNORECASE] such a character
    is matched by itself, by its capital, and in the case of s by the
    long s. *)
Definition status_char (p : char) : Prop :=
  (is_ascii_lower p = true /\ p <> 105 /\ p <> 107) \/ p = 45.

(** A response whose status is spelled with a long s (U+017F), and a
    service that gives it. *)
Definition long_s_response : str :=
  pystr "Status: not-" ++ [LONG_S] ++ pystr "ure".

Definition long_s_service (n : nat) (_ : Request) : nat * Outcome :=
  (S n, Completed [Some long_s_response]).

(** ** Reading the filter *)

(** The row marks the key as accepted: its citekey is the key and its
    status is accepted, in any letter case. *)
Definition row_accepts (key : str) (row : gmap str (option str)) : Prop :=
  row !! pystr "citekey" = Some (Some key)
  /\ match row !! pystr "status" with
     | Some (Some status) => py_lower status = pystr "accepted"
     | _ => False
     end.

Global Instance row_accepts_dec key row : Decision (row_accepts key row).
Proof.
  unfold row_accepts.
  destruct (row !! pystr "status") as [[status|]|]; apply _.
Defined.

(** Some row of the results marks the entry as accepted. *)
Definition selected (rows : list (gmap str (option str)))
    (entry : gmap str str) : Prop :=
  Exists (row_accepts (dict_get entry (pystr "ID") [])) rows.

(** A row of a results table: it has a status, which is text, and a
    citekey column. *)
Definition well_formed_row (row : gmap str (option str)) : Prop :=
  (exists status, row !! pystr "status" = Some (Some status))
  /\ is_Some (row !! pystr "citekey").

(** The example of the design document: keys A, B, C (and D, which the
    table does not mention); A accepted, B rejected, C accepted in mixed
    case. *)
Definition example_verdicts : list Verdict :=
  [mkVerdict (pystr "A") (pystr "A title") (pystr "accepted") (pystr "CI1")
     (pystr "on topic, with data");
   mkVerdict (pystr "B") (pystr "A title") (pystr "rejected") (pystr "CX2")
     (pystr "off topic");
   mkVerdict (pystr "C") (pystr "A title") (pystr "Accepted") (pystr "CI3")
     (pystr "fits well")].

Definition example_rows : list (gmap str (option str)) :=
  (fun v => Csv.row_dict fieldnames (verdict_fields v)) <$> example_verdicts.

Definition example_bibliography : list (gmap str str) :=
  [example_entry "A"; example_entry "B"; example_entry "C"; example_entry "D"].

(** A stand-in for the bibliography library on one file. *)
Definition example_load (text : str) : result (list (gmap str str)) :=
  if bool_decide (text = pystr "@article{A}@article{B}@article{C}@article{D}")
  then Ok example_bibliography
  else Raise ValueError.

Definition example_dump (entries : list (gmap str str)) : str :=
  entries ≫= (fun entry =>
    pystr "@article{" ++ dict_get entry (pystr "ID") [] ++ pystr "}").

Definition example_world : World :=
  mkWorld
    (<[pystr "results.csv" := results_csv_text example_verdicts]>
       (<[pystr "input.bib" :=
            pystr "@article{A}@article{B}@article{C}@article{D}"]> ∅))
    ∅.

(** ** Reading the results table *)

(** The dictionary a verdict is read back as, when it is read back
    unchanged. *)
Definition verdict_row (v : Verdict) : gmap str (option str) :=
  Csv.row_dict fieldnames (verdict_fields v).

(** The reader is at the start of a field. *)
Definition at_field_start (r : Csv.reader) : Prop :=
  Csv.field r = []
  /\ (Csv.st r = Csv.START_FIELD \/ Csv.st r = Csv.START_RECORD).





(** The reader on the characters of a text whose lines all end in [LF]:
    every character is a step, and the end of a line is one more. It is
    what [Csv.records] does on the lines of the text, without cutting the
    text first. *)
Fixpoint stream (r : Csv.reader) (text : str)
  : list (list str) * option PyExc :=
  match text with
  | [] => Csv.records r []
  | c :: text' =>
      match Csv.parse_process_char r (Csv.Ch c) with
      | Raise e => ([], Some e)
      | Ok r1 =>
          if c =? LF then
            match Csv.parse_process_char r1 Csv.EOL with
            | Raise e => ([], Some e)
            | Ok r2 =>
                if bool_decide (Csv.st r2 = Csv.START_RECORD)
                then let '(rows, e) := stream Csv.parse_reset text' in
                     (Csv.fields r2 :: rows, e)
                else stream r2 text'
            end
          else stream r1 text'
      end
  end.

(** The text ends a line where it ends: it is empty with no line begun,
    or its last character is [LF]. *)
Definition terminated (cur text : str) : Prop :=
  match last text with
  | Some c => c = LF
  | None => cur = []
  end.

(** The lines of a table after universal newlines: each record, then
    [LF]. *)
Definition rows_text (rows : list (list str)) : str :=
  rows ≫= (fun fs => Csv.join_fields fs ++ [LF]).

(** No carriage return in any field of the verdict. *)
Definition cr_free (v : Verdict) : Prop :=
  Forall (fun f : str => CR ∉ f) (verdict_fields v).

(** A record of the results table: two fields or more, none with a
    carriage return. *)
Definition plain_record (fs : list str) : Prop :=
  (2 <= length fs)%nat /\ Forall (fun f : str => CR ∉ f) fs.

(** A verdict whose reasoning has a line break as a response with CR LF
    line ends has them. *)
Definition crlf_verdict : Verdict :=
  mkVerdict (pystr "A") (pystr "A title") (pystr "accepted") (pystr "CI1")
    (pystr "on topic," ++ [CR; LF] ++ pystr "with data").

(** The same verdict with LF alone. *)
Definition lf_verdict : Verdict :=
  mkVerdict (pystr "A") (pystr "A title") (pystr "accepted") (pystr "CI1")
    (pystr "on topic," ++ [LF] ++ pystr "with data").

(** ** Reading the rest of the programs *)

(** The service never puts a long s in the text it answers with. *)
Definition answers_without_long_s {Service : Type}
    (chat : Service -> Request -> Service * Outcome) : Prop :=
  forall svc request content choices,
    (chat svc request).2 = Completed (Some content :: choices) ->
    (LONG_S ∉ content).

(** A service that answers with several choices, of which the first has
    no status and the second accepts. *)
Definition two_choice_service (n : nat) (_ : Request) : nat * Outcome :=
  (S n,
   Completed [Some (pystr "Criteria: CX2");
              Some (pystr "Status: accepted")]).

(** A service that answers without any choice. *)
Definition no_choice_service (n : nat) (_ : Request) : nat * Outcome :=
  (S n, Completed []).

(** The number of verdicts with a status, and with a criteria. *)
Definition count_status (s : str) (results : list Verdict) : nat :=
  length (filter (fun v => status v = s) results).

Definition count_criteria (c : str) (results : list Verdict) : nat :=
  length (filter (fun v => criteria v = c) results).

(** The line of the report for a label. *)
Definition share_line (total : nat) (item : str * nat) : LogRecord :=
  LogShare item.1 item.2 total.

(** The codes of two consecutive lines of the report go up. *)
Definition code_lt (x y : str * nat) : Prop := str_compare x.1 y.1 = Lt.

(** Four verdicts for the report: two accepted under the same criteria,
    one rejected, one without a recognizable answer. *)
Definition report_verdicts : list Verdict :=
  [mkVerdict (pystr "A") (pystr "A title") (pystr "accepted") (pystr "CI1")
     (pystr "on topic, with data");
   mkVerdict (pystr "B") (pystr "A title") (pystr "rejected") (pystr "CX2")
     (pystr "off topic");
   mkVerdict (pystr "C") (pystr "A title") (pystr "accepted") (pystr "CI1")
     (pystr "fits well");
   mkVerdict (pystr "D") (pystr "A title") (pystr "not-sure")
     (pystr "not-specified") []].

(** The files of a run of the classifier: the criteria and the
    bibliography of the examples; and the same files where the table cannot
    be written. *)
Definition classifier_world : World :=
  mkWorld
    (<[pystr "criteria.md" := pystr "CI1: on topic"]>
       (<[pystr "input.bib" :=
            pystr "@article{A}@article{B}@article{C}@article{D}"]> ∅))
    ∅.

Definition locked_world : World :=
  mkWorld (files classifier_world) {[pystr "results.csv"]}.

(** The criteria alone, without a bibliography. *)
Definition criteria_only_world : World :=
  mkWorld {[pystr "criteria.md" := pystr "CI1: on topic"]} ∅.



(** The verdict marks the entry as accepted when the table is read
    through universal newlines: its citekey is the identifier of the entry
    and its status is accepted, in any letter case. *)
Definition accepts_entry (entry : gmap str str) (v : Verdict) : Prop :=
  translate_newlines (citekey v) = dict_get entry (pystr "ID") []
  /\ py_lower (translate_newlines (status v)) = pystr "accepted".

Global Instance accepts_entry_dec entry v : Decision (accepts_entry entry v).
Proof. unfold accepts_entry. apply _. Defined.

Definition accepted_by (results : list Verdict) (entry : gmap str str)
  : Prop :=
  Exists (accepts_entry entry) results.

(** The same for the verdicts of the pipeline, which need no
    translation. *)
Definition verdict_accepts (entry : gmap str str) (v : Verdict) : Prop :=
  citekey v = dict_get entry (pystr "ID") []
  /\ status v = pystr "accepted".

Global Instance verdict_accepts_dec entry v :
  Decision (verdict_accepts entry v).
Proof. unfold verdict_accepts. apply _. Defined.

(** * Properties *)

(** ** The evaluation pipeline *)

Section PipelineFacts.
Context (nd : char -> bool) {Service : Type}.
Context (chat : Service -> Request -> Service * Outcome).

Lemma dict_get_default (entry : gmap str str) key d :
  dict_get entry key d = default d (entry !! key).
Proof. unfold dict_get. by destruct (entry !! key). Qed.

Lemma evaluate_entry_sent title abstract criteria_content model_name c :
  sent (evaluate_entry nd Service chat title abstract criteria_content
          model_name c).1
  = sent c ++ [mkRequest model_name system_message
                 (prompt criteria_content title abstract)].
Proof.
  unfold evaluate_entry.
  by destruct (chat _ _) as [svc outcome].
Qed.

Lemma process_entry_acc criteria_content model_name c acc entry :
  process_entry nd Service chat criteria_content model_name (c, acc) entry
  = (let ce :=
       evaluate_entry nd Service chat (dict_get entry (pystr "title") [])
         (dict_get entry (pystr "abstract") [])
         criteria_content model_name c in
     (ce.1, acc ++ [verdict_of entry ce.2])).
Proof.
  unfold process_entry.
  destruct (evaluate_entry _ _ _ _ _ _ _ c) as [c' ev]. simpl.
  unfold verdict_of. by rewrite !dict_get_default.
Qed.

Lemma foldl_process_entry criteria_content model_name entries c acc :
  foldl (process_entry nd Service chat criteria_content model_name)
    (c, acc) entries
  = ((process_entries nd Service chat entries criteria_content model_name c).1,
     acc ++
     (process_entries nd Service chat entries criteria_content model_name c).2).
Proof.
  unfold process_entries.
  revert c acc. induction entries as [|entry entries IH]; intros c acc.
  - simpl. by rewrite app_nil_r.
  - cbn [foldl]. rewrite !process_entry_acc. cbn [fst snd app].
    rewrite (IH _ (acc ++ _)), (IH _ [_]).
    cbn [fst snd]. by rewrite <- app_assoc.
Qed.

(** The loop, one entry at a time. *)
Lemma process_entries_cons entry entries criteria_content model_name c :
  process_entries nd Service chat (entry :: entries) criteria_content
    model_name c
  = let ce :=
      evaluate_entry nd Service chat (dict_get entry (pystr "title") [])
        (dict_get entry (pystr "abstract") [])
        criteria_content model_name c in
    let cr :=
      process_entries nd Service chat entries criteria_content model_name
        ce.1 in
    (cr.1, verdict_of entry ce.2 :: cr.2).
Proof.
  unfold process_entries at 1. cbn [foldl].
  rewrite process_entry_acc. cbn [fst snd app].
  by rewrite foldl_process_entry.
Qed.

Lemma process_entries_nil criteria_content model_name c :
  process_entries nd Service chat [] criteria_content model_name c = (c, []).
Proof. reflexivity. Qed.

Lemma process_entries_app pre post criteria_content model_name c :
  process_entries nd Service chat (pre ++ post) criteria_content model_name c
  = let cp :=
      process_entries nd Service chat pre criteria_content model_name c in
    let cq :=
      process_entries nd Service chat post criteria_content model_name cp.1 in
    (cq.1, cp.2 ++ cq.2).
Proof.
  revert c. induction pre as [|entry pre IH]; intros c.
  - rewrite app_nil_l, process_entries_nil. cbn [fst snd app].
    by destruct (process_entries nd Service chat post _ _ c).
  - rewrite <- app_comm_cons, !process_entries_cons. cbn zeta.
    rewrite IH. reflexivity.
Qed.

Lemma process_entries_citekeys entries criteria_content model_name c :
  citekey
    <$> (process_entries nd Service chat entries criteria_content model_name
           c).2
  = (fun entry => dict_get entry (pystr "ID") (pystr "N/A")) <$> entries.
Proof.
  revert c. induction entries as [|entry entries IH]; intros c.
  - reflexivity.
  - rewrite process_entries_cons. cbn zeta. cbn [snd fmap list_fmap].
    change (list_fmap _ _ citekey ?l) with (citekey <$> l).
    rewrite IH. cbn [verdict_of citekey]. by rewrite dict_get_default.
Qed.

Lemma process_entries_sent entries criteria_content model_name c :
  sent (process_entries nd Service chat entries criteria_content model_name c).1
  = sent c ++ (request_of criteria_content model_name <$> entries).
Proof.
  revert c. induction entries as [|entry entries IH]; intros c.
  - rewrite process_entries_nil. cbn. by rewrite app_nil_r.
  - rewrite process_entries_cons. cbn zeta. cbn [fst].
    rewrite IH, evaluate_entry_sent.
    rewrite <- app_assoc. cbn [app fmap list_fmap]. unfold request_of.
    by rewrite !dict_get_default.
Qed.

Lemma process_entries_titles entries criteria_content model_name c :
  title
    <$> (process_entries nd Service chat entries criteria_content model_name
           c).2
  = (fun entry => default [] (entry !! pystr "title")) <$> entries.
Proof.
  revert c. induction entries as [|entry entries IH]; intros c.
  - reflexivity.
  - rewrite process_entries_cons. cbn zeta. cbn [snd fmap list_fmap].
    change (list_fmap _ _ title ?l) with (title <$> l).
    by rewrite IH.
Qed.


(** C5. A failure of one entry is recovered locally. When the oracle call
    for an entry raises, its verdict is the sentinel not-sure / api-error /
    Evaluation failed; when the parsing step itself raises (the response
    carries no text to search), its verdict is the sentinel not-sure /
    parse-error / Response parsing failed. In both cases the entries
    before keep their verdicts and the entries after are evaluated, from
    the state the client is in after the call. *)
Theorem per_entry_failure_recovered
    (pre post : list (gmap str str)) (entry : gmap str str)
    (criteria_content model_name : str) (c : Client Service) :
  let before :=
    process_entries nd Service chat pre criteria_content model_name c in
  let request := request_of criteria_content model_name entry in
  let call := chat (service before.1) request in
  let after :=
    process_entries nd Service chat post criteria_content model_name
      (mkClient call.1 (sent before.1 ++ [request])) in
  let verdicts :=
    (process_entries nd Service chat (pre ++ entry :: post)
       criteria_content model_name c).2 in
  (forall e, call.2 = Failed e ->
     verdicts
     = before.2 ++ verdict_of entry api_error_evaluation :: after.2)
  /\ (forall choices, call.2 = Completed (None :: choices) ->
       verdicts
       = before.2 ++ verdict_of entry parse_error_evaluation :: after.2).
Proof.
  intros before request call after verdicts.
  assert (Hrun : forall ev,
    (evaluate_entry nd Service chat (dict_get entry (pystr "title") [])
       (dict_get entry (pystr "abstract") []) criteria_content model_name
       before.1).2 = ev ->
    verdicts = before.2 ++ verdict_of entry ev :: after.2).
  { intros ev Hev. subst verdicts.
    rewrite process_entries_app. cbn zeta. cbn [snd].
    rewrite process_entries_cons. cbn zeta. cbn [fst snd].
    fold before. rewrite Hev. do 3 f_equal.
    subst after call request. unfold evaluate_entry, request_of.
    rewrite !dict_get_default.
    by destruct (chat _ _) as [svc outcome]. }
  assert (Hcall :
    (evaluate_entry nd Service chat (dict_get entry (pystr "title") [])
       (dict_get entry (pystr "abstract") []) criteria_content model_name
       before.1).2
    = try_except
        (let* choices :=
           match call.2 with
           | Completed choices => Ok choices
           | Failed e => Raise e
           end in
         let* content :=
           match choices !! 0%nat with
           | Some content => Ok content
           | None => Raise IndexError
           end in
         Ok (parse_response nd content))
        (fun _ => api_error_evaluation)).
  { subst call request. unfold evaluate_entry, request_of.
    rewrite !dict_get_default.
    by destruct (chat _ _) as [svc outcome]. }
  split.
  - intros e He. apply Hrun. rewrite Hcall, He. reflexivity.
  - intros choices Hc. apply Hrun. rewrite Hcall, Hc. reflexivity.
Qed.

(** C10. An entry that lacks a key, a title or an abstract does not make
    the pipeline fail: it has its verdict and its request like any other;
    a missing title is the empty string in the prompt and in the verdict,
    a missing abstract is the empty string in the prompt, and a missing
    key is the citekey N/A in the verdict. *)
Theorem missing_fields_tolerated
    (entries : list (gmap str str)) (criteria_content model_name : str)
    (c : Client Service) (i : nat) (entry : gmap str str) :
  entries !! i = Some entry ->
  let run :=
    process_entries nd Service chat entries criteria_content model_name c in
  exists (v : Verdict) (request : Request),
    run.2 !! i = Some v
    /\ sent run.1 !! (length (sent c) + i)%nat = Some request
    /\ req_user request
       = prompt criteria_content (default [] (entry !! pystr "title"))
           (default [] (entry !! pystr "abstract"))
    /\ (entry !! pystr "ID" = None -> citekey v = pystr "N/A")
    /\ (entry !! pystr "title" = None ->
        title v = []
        /\ req_user request
           = prompt criteria_content []
               (default [] (entry !! pystr "abstract")))
    /\ (entry !! pystr "abstract" = None ->
        req_user request
        = prompt criteria_content (default [] (entry !! pystr "title")) []).
Proof.
  intros Hi run.
  pose proof (process_entries_citekeys entries criteria_content model_name c)
    as Hkeys.
  pose proof (process_entries_titles entries criteria_content model_name c)
    as Htitles.
  pose proof (process_entries_sent entries criteria_content model_name c)
    as Hsent.
  fold run in Hkeys, Htitles, Hsent.
  assert (Hlen : length run.2 = length entries).
  { rewrite <- (length_fmap citekey run.2), Hkeys. apply length_fmap. }
  destruct (lookup_lt_is_Some_2 run.2 i) as [v Hv].
  { rewrite Hlen. eapply lookup_lt_Some, Hi. }
  exists v, (request_of criteria_content model_name entry).
  assert (Hck : citekey v = dict_get entry (pystr "ID") (pystr "N/A")).
  { apply (f_equal (fun l => l !! i)) in Hkeys.
    rewrite !list_lookup_fmap, Hv, Hi in Hkeys. by inversion Hkeys. }
  assert (Hti : title v = default [] (entry !! pystr "title")).
  { apply (f_equal (fun l => l !! i)) in Htitles.
    rewrite !list_lookup_fmap, Hv, Hi in Htitles. by inversion Htitles. }
  split; [done|]. split.
  { rewrite Hsent, lookup_app_r by lia.
    replace (length (sent c) + i - length (sent c))%nat with i by lia.
    by rewrite list_lookup_fmap, Hi. }
  split; [done|]. split.
  { intros Hid. rewrite Hck, dict_get_default, Hid. done. }
  split.
  { intros Ht. rewrite Hti. cbn [request_of req_user]. by rewrite Ht. }
  intros Ha. cbn [request_of req_user]. by rewrite Ha.
Qed.
End PipelineFacts.


(** At the three example entries the first call fails and the second
    answers without text; the third entry is accepted. *)
Lemma per_entry_failure_recovered_witness :
  let c := mkClient O [] in
  let crit := pystr "CI1: on topic" in
  let model := pystr "gpt-4o-mini" in
  let run := process_entries no_other_digits nat example_service in
  ((example_service O (request_of crit model (example_entry "A"))).2
   = Failed ServiceError
   /\ (run example_entries crit model c).2
      = (run [] crit model c).2
        ++ verdict_of (example_entry "A") api_error_evaluation
        :: (run [example_entry "B"; example_entry "C"] crit model
              (mkClient 1%nat [request_of crit model (example_entry "A")])).2)
  /\ ((example_service 1 (request_of crit model (example_entry "B"))).2
      = Completed [None]
      /\ (run example_entries crit model c).2
         = (run [example_entry "A"] crit model c).2
           ++ verdict_of (example_entry "B") parse_error_evaluation
           :: (run [example_entry "C"] crit model
                 (mkClient 2%nat
                    [request_of crit model (example_entry "A");
                     request_of crit model (example_entry "B")])).2).
Proof.
  intros c crit model run. split.
  - split; [reflexivity|].
    exact (proj1 (per_entry_failure_recovered no_other_digits example_service
                    [] [example_entry "B"; example_entry "C"]
                    (example_entry "A") crit model c)
             ServiceError eq_refl).
  - split; [reflexivity|].
    exact (proj2 (per_entry_failure_recovered no_other_digits example_service
                    [example_entry "A"] [example_entry "C"]
                    (example_entry "B") crit model c)
             [] eq_refl).
Defined.

(** An entry without any field, between two complete ones. *)
Lemma missing_fields_tolerated_witness :
  let entries := [example_entry "A"; ∅; example_entry "C"] in
  let crit := pystr "CI1: on topic" in
  let model := pystr "gpt-4o-mini" in
  let run :=
    process_entries no_other_digits nat example_service entries crit model
      (mkClient O []) in
  entries !! 1%nat = Some ∅
  /\ exists (v : Verdict) (request : Request),
      run.2 !! 1%nat = Some v
      /\ sent run.1 !! (0 + 1)%nat = Some request
      /\ req_user request = prompt crit [] []
      /\ ((∅ : gmap str str) !! pystr "ID" = None -> citekey v = pystr "N/A")
      /\ ((∅ : gmap str str) !! pystr "title" = None ->
          title v = [] /\ req_user request = prompt crit [] [])
      /\ ((∅ : gmap str str) !! pystr "abstract" = None ->
          req_user request = prompt crit [] []).
Proof.
  intros entries crit model run. split; [reflexivity|].
  exact (missing_fields_tolerated no_other_digits example_service
           entries crit model (mkClient O []) 1%nat ∅ eq_refl).
Defined.

(** ** The pattern engine *)

Section EngineFacts.
Context (nd : char -> bool) (fl : Sre.flags).

Lemma repeat_greedy_None {A} a s (k : str -> option A) :
  Sre.repeat_greedy nd fl a s k = None
  <-> forall s1 s2,
      s = s1 ++ s2 ->
      Forall (fun x => Sre.atom_match nd fl a x = true) s1 ->
      k s2 = None.
Proof.
  induction s as [|c s IH]; simpl.
  - split.
    + intros Hk s1 s2 Hs _.
      symmetry in Hs. apply app_eq_nil in Hs as [_ ->]. exact Hk.
    + intros H. apply (H [] []); [reflexivity | constructor].
  - destruct (Sre.atom_match nd fl a c) eqn:Hc.
    + destruct (Sre.repeat_greedy nd fl a s k) eqn:Hr.
      * split; [discriminate|]. intros H.
        assert (Hnone : Some a0 = None); [|discriminate].
        apply IH. intros s1 s2 Hs Hall.
        apply (H (c :: s1) s2); [by rewrite Hs | by constructor].
      * split.
        -- intros Hk s1 s2 Hs Hall. destruct s1 as [|x s1].
           ++ simpl in Hs. by subst s2.
           ++ simpl in Hs. injection Hs as -> ->.
              apply Forall_cons in Hall as [_ Hall].
              by apply (proj1 IH eq_refl s1 s2).
        -- intros H. apply (H [] (c :: s)); [reflexivity | constructor].
    + split.
      * intros Hk s1 s2 Hs Hall. destruct s1 as [|x s1].
        -- simpl in Hs. by subst s2.
        -- simpl in Hs. injection Hs as -> ->.
           apply Forall_cons in Hall as [Hx _]. congruence.
      * intros H. apply (H [] (c :: s)); [reflexivity | constructor].
Qed.

Lemma repeat_greedy_Some {A} a s (k : str -> option A) m :
  Sre.repeat_greedy nd fl a s k = Some m ->
  exists s1 s2,
    s = s1 ++ s2
    /\ Forall (fun x => Sre.atom_match nd fl a x = true) s1
    /\ k s2 = Some m.
Proof.
  revert m. induction s as [|c s IH]; intros m; simpl.
  - intros Hk. exists [], []. by repeat split.
  - destruct (Sre.atom_match nd fl a c) eqn:Hc.
    + destruct (Sre.repeat_greedy nd fl a s k) eqn:Hr.
      * intros [= <-]. destruct (IH _ eq_refl) as (s1 & s2 & -> & Hall & Hk).
        exists (c :: s1), s2. repeat split; [by constructor | done].
      * intros Hk. exists [], (c :: s). by repeat split.
    + intros Hk. exists [], (c :: s). by repeat split.
Qed.

Lemma captured_prefix (s1 s2 : str) :
  take (length (s1 ++ s2) - length s2) (s1 ++ s2) = s1.
Proof.
  rewrite length_app.
  replace (length s1 + length s2 - length s2)%nat with (length s1) by lia.
  by rewrite take_app_length.
Qed.

Lemma match_here_None r : forall s caps k,
  Sre.match_here nd fl r s caps k = None
  <-> forall s1 s2 caps',
      s = s1 ++ s2 -> matches nd fl r s1 caps caps' -> k s2 caps' = None.
Proof.
  induction r as [|a|a|a|r1 IH1 r2 IH2|r1 IH1 r2 IH2|n r IH];
    intros s caps k; simpl.
  - split.
    + intros Hk s1 s2 caps' Hs Hm. inversion Hm; subst. exact Hk.
    + intros H. apply (H [] s); [reflexivity | constructor].
  - destruct s as [|c s].
    + split; [|done]. intros _ s1 s2 caps' Hs Hm.
      inversion Hm; subst. discriminate.
    + destruct (Sre.atom_match nd fl a c) eqn:Hc.
      * split.
        -- intros Hk s1 s2 caps' Hs Hm. inversion Hm; subst.
           simpl in Hs. by injection Hs as -> ->.
        -- intros H. apply (H [c] s); [reflexivity | by constructor].
      * split; [|done]. intros _ s1 s2 caps' Hs Hm.
        inversion Hm; subst. simpl in Hs. injection Hs as -> ->. congruence.
  - rewrite repeat_greedy_None. split.
    + intros H s1 s2 caps' Hs Hm. inversion Hm; subst. by apply (H s1).
    + intros H s1 s2 Hs Hall. apply (H s1); [done | by constructor].
  - destruct s as [|c s].
    + split; [|done]. intros _ s1 s2 caps' Hs Hm.
      inversion Hm; subst. discriminate.
    + destruct (Sre.atom_match nd fl a c) eqn:Hc.
      * rewrite repeat_greedy_None. split.
        -- intros H s1 s2 caps' Hs Hm. inversion Hm; subst.
           simpl in Hs. injection Hs as -> ->. by apply (H xs).
        -- intros H s1 s2 Hs Hall.
           apply (H (c :: s1)); [by rewrite Hs | by constructor].
      * split; [|done]. intros _ s1 s2 caps' Hs Hm.
        inversion Hm; subst. simpl in Hs. injection Hs as -> ->. congruence.
  - rewrite IH1. split.
    + intros H s1 s2 caps' Hs Hm. inversion Hm; subst.
      rewrite <- app_assoc in H.
      specialize (H _ _ _ eq_refl ltac:(eassumption)).
      rewrite IH2 in H. by apply (H s3).
    + intros H s1 s2 caps' Hs Hm1. apply IH2.
      intros s3 s4 caps'' Hs2 Hm2. subst.
      apply (H (s1 ++ s3)); [by rewrite app_assoc | by econstructor].
  - destruct (Sre.match_here nd fl r1 s caps k) eqn:H1.
    + split; [discriminate|]. intros H.
      assert (Hnone : Sre.match_here nd fl r1 s caps k = None).
      { apply IH1. intros s1 s2 caps' Hs Hm.
        apply (H s1); [done | by apply matches_alt_l]. }
      congruence.
    + rewrite IH2. rewrite IH1 in H1. split.
      * intros H s1 s2 caps' Hs Hm. inversion Hm; subst; eauto.
      * intros H s1 s2 caps' Hs Hm.
        apply (H s1); [done | by apply matches_alt_r].
  - rewrite IH. split.
    + intros H s1 s2 caps' Hs Hm. inversion Hm; subst.
      specialize (H _ _ _ eq_refl ltac:(eassumption)).
      by rewrite captured_prefix in H.
    + intros H s1 s2 caps' Hs Hm. subst. rewrite captured_prefix.
      apply (H s1); [done | by constructor].
Qed.

Lemma match_here_Some r : forall s caps k m,
  Sre.match_here nd fl r s caps k = Some m ->
  exists s1 s2 caps',
    s = s1 ++ s2 /\ matches nd fl r s1 caps caps' /\ k s2 caps' = Some m.
Proof.
  induction r as [|a|a|a|r1 IH1 r2 IH2|r1 IH1 r2 IH2|n r IH];
    intros s caps k m; simpl.
  - intros Hk. exists [], s, caps. repeat split; [constructor | done].
  - destruct s as [|c s]; [discriminate|].
    destruct (Sre.atom_match nd fl a c) eqn:Hc; [|discriminate].
    intros Hk. exists [c], s, caps. repeat split; [by constructor | done].
  - intros H. apply repeat_greedy_Some in H as (s1 & s2 & -> & Hall & Hk).
    exists s1, s2, caps. repeat split; [by constructor | done].
  - destruct s as [|c s]; [discriminate|].
    destruct (Sre.atom_match nd fl a c) eqn:Hc; [|discriminate].
    intros H. apply repeat_greedy_Some in H as (s1 & s2 & -> & Hall & Hk).
    exists (c :: s1), s2, caps. repeat split; [by constructor | done].
  - intros H. apply IH1 in H as (s1 & s2 & caps' & -> & Hm1 & H).
    apply IH2 in H as (s3 & s4 & caps'' & -> & Hm2 & Hk).
    exists (s1 ++ s3), s4, caps''.
    repeat split; [by rewrite app_assoc | by econstructor | done].
  - destruct (Sre.match_here nd fl r1 s caps k) eqn:H1.
    + intros [= <-]. apply IH1 in H1 as (s1 & s2 & caps' & -> & Hm & Hk).
      exists s1, s2, caps'. repeat split; [by apply matches_alt_l | done].
    + intros H. apply IH2 in H as (s1 & s2 & caps' & -> & Hm & Hk).
      exists s1, s2, caps'. repeat split; [by apply matches_alt_r | done].
  - intros H. apply IH in H as (s1 & s2 & caps' & -> & Hm & Hk).
    rewrite captured_prefix in Hk.
    exists s1, s2, (<[n := s1]> caps').
    repeat split; [by constructor | done].
Qed.


Lemma search_Some r text m :
  Sre.search nd fl r text = Some m ->
  exists pre mid post,
    text = pre ++ mid ++ post /\ matches nd fl r mid ∅ m.
Proof.
  induction text as [|c text IH]; simpl.
  - destruct (Sre.match_here nd fl r [] ∅ (fun _ caps => Some caps)) eqn:H;
      [|discriminate].
    intros [= <-].
    apply match_here_Some in H as (s1 & s2 & caps' & Hs & Hm & [= <-]).
    by exists [], s1, s2.
  - destruct (Sre.match_here nd fl r (c :: text) ∅ (fun _ caps => Some caps))
      eqn:H.
    + intros [= <-].
      apply match_here_Some in H as (s1 & s2 & caps' & Hs & Hm & [= <-]).
      by exists [], s1, s2.
    + intros Hs. apply IH in Hs as (pre & mid & post & -> & Hm).
      by exists (c :: pre), mid, post.
Qed.

Lemma matches_seq_inv r1 r2 s caps caps'' :
  matches nd fl (Sre.Seq r1 r2) s caps caps''
  <-> exists s1 s2 caps',
      s = s1 ++ s2
      /\ matches nd fl r1 s1 caps caps'
      /\ matches nd fl r2 s2 caps' caps''.
Proof.
  split.
  - intros Hm. inversion Hm; subst. eauto 6.
  - intros (s1 & s2 & caps' & -> & H1 & H2). by econstructor.
Qed.

Lemma matches_group_inv n r s caps caps'' :
  matches nd fl (Sre.Group n r) s caps caps''
  <-> exists caps', matches nd fl r s caps caps' /\ caps'' = <[n := s]> caps'.
Proof.
  split.
  - intros Hm. inversion Hm; subst. eauto.
  - intros (caps' & H & ->). by constructor.
Qed.

Lemma matches_alt_inv r1 r2 s caps caps' :
  matches nd fl (Sre.Alt r1 r2) s caps caps'
  <-> matches nd fl r1 s caps caps' \/ matches nd fl r2 s caps caps'.
Proof.
  split.
  - intros Hm. inversion Hm; subst; eauto.
  - intros [H|H]; [by apply matches_alt_l | by apply matches_alt_r].
Qed.

Lemma matches_star_inv a s caps caps' :
  matches nd fl (Sre.Star a) s caps caps'
  <-> Forall (fun x => Sre.atom_match nd fl a x = true) s /\ caps' = caps.
Proof.
  split.
  - intros Hm. inversion Hm; subst. eauto.
  - intros [H ->]. by constructor.
Qed.

Lemma matches_plus_inv a s caps caps' :
  matches nd fl (Sre.Plus a) s caps caps'
  <-> s <> []
      /\ Forall (fun x => Sre.atom_match nd fl a x = true) s
      /\ caps' = caps.
Proof.
  split.
  - intros Hm. inversion Hm; subst. repeat split; [done | by constructor].
  - intros (Hne & H & ->). destruct s as [|x xs]; [done|].
    apply Forall_cons in H as [Hx H]. by constructor.
Qed.

Lemma matches_literal word s caps caps' :
  matches nd fl (Sre.literal word) s caps caps'
  <-> spells fl word s /\ caps' = caps.
Proof.
  revert s caps'. induction word as [|p word IH]; intros s caps'; simpl.
  - split.
    + intros Hm. inversion Hm; subst. split; [constructor | done].
    + intros [Hsp ->]. inversion Hsp; subst. constructor.
  - split.
    + intros Hm. inversion Hm as [| | | |? ? s1 s2 ? c1 ? Hm1 Hm2| | |]; subst.
      inversion Hm1; subst. apply IH in Hm2 as [Hsp ->].
      split; [by constructor | done].
    + intros [Hsp ->]. inversion Hsp as [|? x ? s' Hx Hsp']; subst.
      apply (matches_seq _ _ _ _ [x] s' caps caps caps).
      * by constructor.
      * by apply IH.
Qed.
End EngineFacts.

(** ** The response parser *)

Section ParserFacts.
Context (nd : char -> bool).

Lemma spells_exact word s : spells no_flags word s <-> s = word.
Proof.
  unfold spells. split.
  - induction 1 as [|p x word s Hx _ IH]; [done|].
    cbn in Hx. apply N.eqb_eq in Hx. by subst.
  - intros ->. induction word as [|p word IH]; constructor; [|done].
    cbn. apply N.eqb_refl.
Qed.

Lemma spells_exact_DOTALL word s : spells re_DOTALL word s <-> s = word.
Proof.
  unfold spells. split.
  - induction 1 as [|p x word s Hx _ IH]; [done|].
    cbn in Hx. apply N.eqb_eq in Hx. by subst.
  - intros ->. induction word as [|p word IH]; constructor; [|done].
    cbn. apply N.eqb_refl.
Qed.

Lemma matches_status_pattern mid m :
  matches nd re_IGNORECASE status_pattern mid ∅ m
  <-> exists keyword blank value word,
      mid = keyword ++ blank ++ value
      /\ spells re_IGNORECASE (pystr "Status:") keyword
      /\ Forall (fun c => is_space c = true) blank
      /\ word ∈ status_values
      /\ spells re_IGNORECASE word value
      /\ m = <[1%nat := value]> ∅.
Proof.
  unfold status_pattern. split.
  - intros Hm.
    apply matches_seq_inv in Hm as (keyword & rest & c1 & -> & Hk & Hm).
    apply matches_literal in Hk as [Hk ->].
    apply matches_seq_inv in Hm as (blank & value & c2 & -> & Hb & Hm).
    apply matches_star_inv in Hb as [Hb ->].
    apply matches_group_inv in Hm as (c3 & Hm & ->).
    assert (exists word, word ∈ status_values
                         /\ spells re_IGNORECASE word value /\ c3 = ∅)
      as (word & Hw & Hsp & ->).
    { unfold status_values.
      apply matches_alt_inv in Hm as [Hm|Hm];
        [|apply matches_alt_inv in Hm as [Hm|Hm]];
        apply matches_literal in Hm as [Hm ->];
        eexists; (split; [|done]).
      - apply elem_of_cons. by left.
      - apply elem_of_cons. right. apply elem_of_cons. by left.
      - do 2 (apply elem_of_cons; right). apply elem_of_cons. by left. }
    by exists keyword, blank, value, word.
  - intros (keyword & blank & value & word & -> & Hk & Hb & Hw & Hv & ->).
    apply matches_seq_inv. exists keyword, (blank ++ value), ∅.
    split; [done|]. split; [by apply matches_literal|].
    apply matches_seq_inv. exists blank, value, ∅.
    split; [done|]. split; [by apply matches_star_inv|].
    apply matches_group_inv. exists ∅. split; [|done].
    unfold status_values in Hw.
    apply elem_of_cons in Hw as [->|Hw].
    { apply matches_alt_inv. left. by apply matches_literal. }
    apply elem_of_cons in Hw as [->|Hw].
    { apply matches_alt_inv. right. apply matches_alt_inv. left.
      by apply matches_literal. }
    apply elem_of_cons in Hw as [->|Hw].
    { apply matches_alt_inv. right. apply matches_alt_inv. right.
      by apply matches_literal. }
    by apply elem_of_nil in Hw.
Qed.


Lemma matches_criteria_pattern mid m :
  matches nd no_flags criteria_pattern mid ∅ m
  <-> exists blank kind digits,
      mid = pystr "Criteria:" ++ blank ++ 67 :: kind :: digits
      /\ Forall (fun c => is_space c = true) blank
      /\ (kind = 73 \/ kind = 88)
      /\ digits <> []
      /\ Forall (fun c => Sre.is_decimal nd c = true) digits
      /\ m = <[1%nat := 67 :: kind :: digits]> (<[2%nat := [67; kind]]> ∅).
Proof.
  unfold criteria_pattern. split.
  - intros Hm.
    apply matches_seq_inv in Hm as (keyword & rest & c1 & -> & Hk & Hm).
    apply matches_literal in Hk as [Hk ->]. apply spells_exact in Hk as ->.
    apply matches_seq_inv in Hm as (blank & value & c2 & -> & Hb & Hm).
    apply matches_star_inv in Hb as [Hb ->].
    apply matches_group_inv in Hm as (c3 & Hm & ->).
    apply matches_seq_inv in Hm as (code & digits & c4 & -> & Hc & Hd).
    apply matches_group_inv in Hc as (c5 & Hc & ->).
    apply matches_plus_inv in Hd as (Hne & Hd & ->).
    assert (exists kind, (kind = 73 \/ kind = 88) /\ code = [67; kind]
                         /\ c5 = ∅) as (kind & Hkind & -> & ->).
    { apply matches_alt_inv in Hc as [Hc|Hc];
        apply matches_literal in Hc as [Hc ->];
        apply spells_exact in Hc as ->; eexists; repeat split; eauto. }
    by exists blank, kind, digits.
  - intros (blank & kind & digits & -> & Hb & Hkind & Hne & Hd & ->).
    apply matches_seq_inv. eexists _, _, ∅.
    split; [done|]. split; [by apply matches_literal; split; [apply spells_exact|]|].
    apply matches_seq_inv. exists blank, (67 :: kind :: digits), ∅.
    split; [done|]. split; [by apply matches_star_inv|].
    apply matches_group_inv. eexists. split; [|done].
    apply matches_seq_inv. exists [67; kind], digits, (<[2%nat := [67; kind]]> ∅).
    split; [done|]. split; [|by apply matches_plus_inv].
    apply matches_group_inv. exists ∅. split; [|done].
    apply matches_alt_inv.
    destruct Hkind as [->| ->]; [left|right];
      by apply matches_literal; split; [apply spells_exact|].
Qed.

Lemma found_criteria_pattern text :
  found nd no_flags criteria_pattern text <-> has_criteria_code nd text.
Proof.
  unfold found, has_criteria_code. split.
  - intros (pre & mid & post & caps & -> & Hm).
    apply matches_criteria_pattern in Hm
      as (blank & kind & digits & -> & Hb & Hk & Hne & Hd & _).
    exists pre, blank, kind, digits, post.
    repeat split; try done. by rewrite <- !app_assoc.
  - intros (pre & blank & kind & digits & post & -> & Hb & Hk & Hne & Hd).
    eexists pre, (pystr "Criteria:" ++ blank ++ 67 :: kind :: digits), post, _.
    split; [by rewrite <- !app_assoc|].
    apply matches_criteria_pattern. by exists blank, kind, digits.
Qed.

Lemma matches_reasoning_pattern mid m :
  matches nd re_DOTALL reasoning_pattern mid ∅ m
  <-> exists blank rest,
      mid = pystr "Reasoning:" ++ blank ++ rest
      /\ Forall (fun c => is_space c = true) blank
      /\ m = <[1%nat := rest]> ∅.
Proof.
  unfold reasoning_pattern. split.
  - intros Hm.
    apply matches_seq_inv in Hm as (keyword & rest & c1 & -> & Hk & Hm).
    apply matches_literal in Hk as [Hk ->].
    apply spells_exact_DOTALL in Hk as ->.
    apply matches_seq_inv in Hm as (blank & value & c2 & -> & Hb & Hm).
    apply matches_star_inv in Hb as [Hb ->].
    apply matches_group_inv in Hm as (c3 & Hm & ->).
    apply matches_star_inv in Hm as [_ ->].
    by exists blank, value.
  - intros (blank & rest & -> & Hb & ->).
    apply matches_seq_inv. eexists _, _, ∅.
    split; [done|]. split; [by apply matches_literal; split; [apply spells_exact_DOTALL|]|].
    apply matches_seq_inv. exists blank, rest, ∅.
    split; [done|]. split; [by apply matches_star_inv|].
    apply matches_group_inv. exists ∅. split; [|done].
    apply matches_star_inv. split; [|done].
    by apply Forall_forall.
Qed.

Lemma found_reasoning_pattern text :
  found nd re_DOTALL reasoning_pattern text <-> has_reasoning_marker text.
Proof.
  unfold found, has_reasoning_marker. split.
  - intros (pre & mid & post & caps & -> & Hm).
    apply matches_reasoning_pattern in Hm as (blank & rest & -> & Hb & _).
    exists pre, (blank ++ rest ++ post). by rewrite <- !app_assoc.
  - intros (pre & post & ->).
    eexists pre, (pystr "Reasoning:" ++ [] ++ []), post, _.
    split; [by rewrite <- !app_assoc|].
    apply matches_reasoning_pattern. by exists [], [].
Qed.

(** Group 1 takes part in every match of the three patterns. *)
Lemma status_group_bound text m :
  Sre.search nd re_IGNORECASE status_pattern text = Some m ->
  is_Some (m !! 1%nat).
Proof.
  intros H. apply search_Some in H as (pre & mid & post & _ & Hm).
  apply matches_status_pattern in Hm as (? & ? & v & ? & _ & _ & _ & _ & _ & ->).
  rewrite lookup_insert_eq. eauto.
Qed.

Lemma criteria_group_bound text m :
  Sre.search nd no_flags criteria_pattern text = Some m ->
  is_Some (m !! 1%nat).
Proof.
  intros H. apply search_Some in H as (pre & mid & post & _ & Hm).
  apply matches_criteria_pattern in Hm as (? & ? & ? & _ & _ & _ & _ & _ & ->).
  rewrite lookup_insert_eq. eauto.
Qed.

Lemma reasoning_group_bound text m :
  Sre.search nd re_DOTALL reasoning_pattern text = Some m ->
  is_Some (m !! 1%nat).
Proof.
  intros H. apply search_Some in H as (pre & mid & post & _ & Hm).
  apply matches_reasoning_pattern in Hm as (? & ? & _ & _ & ->).
  rewrite lookup_insert_eq. eauto.
Qed.

(** On text the parser never reaches its handler: the three fields are
    read off the three searches. *)
Lemma parse_response_text text :
  parse_response nd (Some text)
  = mkEvaluation
      (match Sre.search nd re_IGNORECASE status_pattern text with
       | Some m => py_lower (default [] (m !! 1%nat))
       | None => pystr "not-sure"
       end)
      (match Sre.search nd no_flags criteria_pattern text with
       | Some m => default [] (m !! 1%nat)
       | None => pystr "not-specified"
       end)
      (match Sre.search nd re_DOTALL reasoning_pattern text with
       | Some m => py_strip (default [] (m !! 1%nat))
       | None => []
       end).
Proof.
  unfold parse_response, re_search, group_then. cbn [bind].
  destruct (Sre.search nd re_IGNORECASE status_pattern text) as [ms|] eqn:Hs;
    [destruct (status_group_bound _ _ Hs) as [gs ->]|];
    (destruct (Sre.search nd no_flags criteria_pattern text) as [mc|] eqn:Hc;
      [destruct (criteria_group_bound _ _ Hc) as [gc ->]|]);
    (destruct (Sre.search nd re_DOTALL reasoning_pattern text) as [mr|] eqn:Hr;
      [destruct (reasoning_group_bound _ _ Hr) as [gr ->]|]);
    reflexivity.
Qed.
End ParserFacts.




(** ** Letter case *)

Ltac bool_arith :=
  unfold is_space, is_ascii, is_ascii_upper, is_ascii_lower, is_ascii_digit,
    in_range, CAPITAL_I_DOT, KELVIN, LONG_S, DOTLESS_I, LF, CR, COMMA, DQUOTE
    in *;
  repeat match goal with
  | H : (_ && _) = true |- _ => apply andb_true_iff in H as [? ?]
  | H : N.leb _ _ = true |- _ => apply N.leb_le in H
  | H : N.ltb _ _ = true |- _ => apply N.ltb_lt in H
  | H : N.eqb _ _ = true |- _ => apply N.eqb_eq in H
  end;
  repeat match goal with
  | |- context [N.leb ?a ?b] => destruct (N.leb_spec a b); try lia
  | |- context [N.ltb ?a ?b] => destruct (N.ltb_spec a b); try lia
  | |- context [N.eqb ?a ?b] => destruct (N.eqb_spec a b); try lia
  end;
  cbn [andb orb negb]; try reflexivity; try lia.

Lemma unicode_tolower_ascii_lower c :
  Sre.unicode_tolower (ascii_lower c) = Sre.unicode_tolower c.
Proof.
  unfold ascii_lower. destruct (is_ascii_upper c) eqn:Hu; [|done].
  unfold Sre.unicode_tolower. rewrite Hu. bool_arith.
Qed.

Lemma py_lower_char_ascii_lower c :
  py_lower_char (ascii_lower c) = py_lower_char c.
Proof.
  unfold ascii_lower. destruct (is_ascii_upper c) eqn:Hu; [|done].
  unfold py_lower_char. rewrite Hu. bool_arith.
Qed.

Lemma is_space_ascii_lower c : is_space (ascii_lower c) = is_space c.
Proof.
  unfold ascii_lower. destruct (is_ascii_upper c) eqn:Hu; [|done].
  bool_arith.
Qed.

Section CaseFacts.
Context (nd : char -> bool) (fl : Sre.flags).
Hypothesis ignore_case : Sre.IGNORECASE fl = true.

Lemma atom_match_ascii_lower a c :
  Sre.atom_match nd fl a (ascii_lower c) = Sre.atom_match nd fl a c.
Proof.
  destruct a as [p| | |]; cbn [Sre.atom_match].
  - unfold Sre.lit_match. rewrite ignore_case.
    by rewrite unicode_tolower_ascii_lower.
  - apply is_space_ascii_lower.
  - unfold ascii_lower. destruct (is_ascii_upper c) eqn:Hu; [|done].
    unfold Sre.is_decimal. bool_arith.
  - unfold ascii_lower. destruct (is_ascii_upper c) eqn:Hu; [|done].
    f_equal. bool_arith.
Qed.

Lemma atom_match_case_variant a c c' :
  ascii_lower c = ascii_lower c' ->
  Sre.atom_match nd fl a c = Sre.atom_match nd fl a c'.
Proof.
  intros H.
  by rewrite <- (atom_match_ascii_lower a c), H, atom_match_ascii_lower.
Qed.

Lemma repeat_greedy_case_variant a s s' (k k' : str -> option (gmap nat str)) :
  case_variant s s' ->
  (forall t t', case_variant t t' ->
     option_Forall2 caps_variant (k t) (k' t')) ->
  option_Forall2 caps_variant
    (Sre.repeat_greedy nd fl a s k) (Sre.repeat_greedy nd fl a s' k').
Proof.
  revert s'. induction s as [|c s IH]; intros s' Hs Hk.
  - destruct s' as [|c' s']; [|discriminate]. simpl. by apply Hk.
  - destruct s' as [|c' s']; [discriminate|].
    injection Hs as Hc Hs. simpl.
    rewrite (atom_match_case_variant a c c' Hc).
    assert (Hcs : case_variant (c :: s) (c' :: s')).
    { unfold case_variant. rewrite !fmap_cons. by f_equal. }
    destruct (Sre.atom_match nd fl a c'); [|by apply Hk].
    specialize (IH s' Hs Hk).
    destruct IH as [m m' Hm|]; [by constructor | by apply Hk].
Qed.

Lemma case_variant_length s s' : case_variant s s' -> length s = length s'.
Proof.
  intros H. apply (f_equal length) in H. by rewrite !length_fmap in H.
Qed.

Lemma case_variant_take n s s' :
  case_variant s s' -> case_variant (take n s) (take n s').
Proof.
  unfold case_variant. intros H. by rewrite !fmap_take, H.
Qed.

Lemma caps_variant_insert n g g' caps caps' :
  case_variant g g' -> caps_variant caps caps' ->
  caps_variant (<[n := g]> caps) (<[n := g']> caps').
Proof.
  intros Hg Hc i. destruct (decide (n = i)) as [->|Hne].
  - rewrite !lookup_insert_eq. by constructor.
  - rewrite !lookup_insert_ne by done. apply Hc.
Qed.

Lemma match_here_case_variant r : forall s s' caps caps' k k',
  case_variant s s' ->
  caps_variant caps caps' ->
  (forall t t' d d', case_variant t t' -> caps_variant d d' ->
     option_Forall2 caps_variant (k t d) (k' t' d')) ->
  option_Forall2 caps_variant
    (Sre.match_here nd fl r s caps k) (Sre.match_here nd fl r s' caps' k').
Proof.
  induction r as [|a|a|a|r1 IH1 r2 IH2|r1 IH1 r2 IH2|n r IH];
    intros s s' caps caps' k k' Hs Hc Hk; simpl.
  - by apply Hk.
  - destruct s as [|c s], s' as [|c' s']; try discriminate; [constructor|].
    injection Hs as Hx Hs.
    rewrite (atom_match_case_variant a c c' Hx).
    destruct (Sre.atom_match nd fl a c'); [by apply Hk | constructor].
  - apply repeat_greedy_case_variant; [done|]. intros t t' Ht. by apply Hk.
  - destruct s as [|c s], s' as [|c' s']; try discriminate; [constructor|].
    injection Hs as Hx Hs.
    rewrite (atom_match_case_variant a c c' Hx).
    destruct (Sre.atom_match nd fl a c'); [|constructor].
    apply repeat_greedy_case_variant; [done|]. intros t t' Ht. by apply Hk.
  - apply IH1; [done..|]. intros t t' d d' Ht Hd. by apply IH2.
  - specialize (IH1 s s' caps caps' k k' Hs Hc Hk).
    destruct IH1 as [m m' Hm|]; [by constructor|]. by apply IH2.
  - apply IH; [done..|]. intros t t' d d' Ht Hd. apply Hk; [done|].
    apply caps_variant_insert; [|done].
    rewrite (case_variant_length _ _ Hs), (case_variant_length _ _ Ht).
    by apply case_variant_take.
Qed.

Lemma search_case_variant r s s' :
  case_variant s s' ->
  option_Forall2 caps_variant (Sre.search nd fl r s) (Sre.search nd fl r s').
Proof.
  revert s'. induction s as [|c s IH]; intros s' Hs.
  - destruct s' as [|c' s']; [|discriminate]. simpl.
    destruct (Sre.match_here nd fl r [] ∅ _) as [m|]; constructor.
    intros n. destruct (m !! n); by constructor.
  - destruct s' as [|c' s']; [discriminate|]. simpl.
    assert (Hm : option_Forall2 caps_variant
              (Sre.match_here nd fl r (c :: s) ∅ (fun _ caps => Some caps))
              (Sre.match_here nd fl r (c' :: s') ∅ (fun _ caps => Some caps))).
    { apply match_here_case_variant; [done| |].
      - intros n. rewrite lookup_empty. constructor.
      - intros t t' d d' _ Hd. by constructor. }
    destruct Hm as [m m' Hm|]; [by constructor|].
    injection Hs as _ Hs. by apply IH.
Qed.
End CaseFacts.

Lemma py_lower_case_variant s s' :
  case_variant s s' -> py_lower s = py_lower s'.
Proof.
  revert s'. induction s as [|c s IH]; intros [|c' s'] Hs;
    try discriminate; [done|].
  injection Hs as Hc Hs. unfold py_lower in *. cbn.
  rewrite (IH s' Hs).
  by rewrite <- (py_lower_char_ascii_lower c), Hc, py_lower_char_ascii_lower.
Qed.

(** C4, as the code has it. Only the status is searched for with
    [IGNORECASE]: changing the case of ASCII letters anywhere in the text
    does not change the extracted status, and status: REJECTED gives
    rejected. The criteria and the reasoning are searched for as written: a
    criteria other than the default comes only from the keyword Criteria:
    followed by an upper-case code, a reasoning other than the empty one
    only from the keyword Reasoning: so capitalised. *)
Theorem status_case_insensitive (nd : char -> bool) :
  (forall text text',
     case_variant text text' ->
     ev_status (parse_response nd (Some text))
     = ev_status (parse_response nd (Some text')))
  /\ ev_status (parse_response nd (Some (pystr "status: REJECTED")))
     = pystr "rejected"
  /\ (forall text,
       ev_criteria (parse_response nd (Some text)) <> pystr "not-specified" ->
       has_criteria_code nd text)
  /\ (forall text,
       ev_reasoning (parse_response nd (Some text)) <> [] ->
       has_reasoning_marker text).
Proof.
  split_and!.
  - intros text text' Hv. rewrite !parse_response_text. cbn [ev_status].
    pose proof (search_case_variant nd re_IGNORECASE eq_refl status_pattern
                  text text' Hv) as Hm.
    destruct Hm as [m m' Hm|]; [|done].
    specialize (Hm 1%nat).
    destruct Hm as [g g' Hg|]; [|done]. cbn. by apply py_lower_case_variant.
  - vm_compute. reflexivity.
  - intros text H. rewrite parse_response_text in H. cbn [ev_criteria] in H.
    apply found_criteria_pattern.
    destruct (Sre.search nd no_flags criteria_pattern text) as [m|] eqn:Hm;
      [|done].
    apply search_Some in Hm as (pre & mid & post & -> & Hm).
    by exists pre, mid, post, m.
  - intros text H. rewrite parse_response_text in H. cbn [ev_reasoning] in H.
    apply (found_reasoning_pattern nd).
    destruct (Sre.search nd re_DOTALL reasoning_pattern text) as [m|] eqn:Hm;
      [|done].
    apply search_Some in Hm as (pre & mid & post & -> & Hm).
    by exists pre, mid, post, m.
Qed.

Lemma status_case_insensitive_witness :
  case_variant (pystr "status: REJECTED") (pystr "Status: rejected")
  /\ ev_status (parse_response no_other_digits (Some (pystr "status: REJECTED")))
     = ev_status
         (parse_response no_other_digits (Some (pystr "Status: rejected"))).
Proof.
  split; [reflexivity|].
  exact (proj1 (status_case_insensitive no_other_digits)
           (pystr "status: REJECTED") (pystr "Status: rejected") eq_refl).
Defined.

(** The criteria code and the two other keywords are case-sensitive: in
    lower case they are not extracted. *)
Lemma criteria_and_reasoning_case_sensitive :
  let parse text := parse_response no_other_digits (Some text) in
  case_variant (pystr "Criteria: ci3") (pystr "Criteria: CI3")
  /\ case_variant (pystr "criteria: CI3") (pystr "Criteria: CI3")
  /\ ev_criteria (parse (pystr "Criteria: CI3")) = pystr "CI3"
  /\ ev_criteria (parse (pystr "Criteria: ci3")) = pystr "not-specified"
  /\ ev_criteria (parse (pystr "criteria: CI3")) = pystr "not-specified"
  /\ case_variant (pystr "reasoning: fits well") (pystr "Reasoning: fits well")
  /\ ev_reasoning (parse (pystr "Reasoning: fits well")) = pystr "fits well"
  /\ ev_reasoning (parse (pystr "reasoning: fits well")) = [].
Proof. vm_compute. split_and!; reflexivity. Qed.

(** ** The status values *)

Lemma unicode_tolower_status_char p :
  status_char p -> Sre.unicode_tolower p = p.
Proof.
  unfold Sre.unicode_tolower.
  intros [(Hl & _ & _)| ->]; [|done]. bool_arith.
Qed.

Lemma ignorecase_fixes_status_char p :
  status_char p ->
  Sre.ignorecase_fixes p = if p =? 115 then [LONG_S] else [].
Proof.
  unfold Sre.ignorecase_fixes.
  intros [(_ & Hi & _)| ->]; [|done].
  by destruct (N.eqb_spec p 105).
Qed.

Lemma unicode_tolower_long_s x :
  Sre.unicode_tolower x = LONG_S -> x = LONG_S.
Proof.
  unfold Sre.unicode_tolower.
  destruct (is_ascii_upper x) eqn:Hu; [intros H; bool_arith|].
  destruct (x =? CAPITAL_I_DOT); [discriminate|].
  by destruct (x =? KELVIN).
Qed.

Lemma unicode_tolower_py_lower p x :
  status_char p -> Sre.unicode_tolower x = p -> py_lower_char x = [p].
Proof.
  unfold Sre.unicode_tolower, py_lower_char. intros Hp.
  destruct (is_ascii_upper x); [by intros ->|].
  destruct (x =? CAPITAL_I_DOT).
  { intros <-. by destruct Hp as [(_ & Hi & _)|H]. }
  destruct (x =? KELVIN).
  { intros <-. by destruct Hp as [(_ & _ & Hk)|H]. }
  by intros ->.
Qed.

Lemma lit_match_py_lower p x :
  status_char p ->
  Sre.lit_match re_IGNORECASE p x = true ->
  x <> LONG_S ->
  py_lower_char x = [p].
Proof.
  intros Hp Hm Hx. unfold Sre.lit_match in Hm.
  cbn [Sre.IGNORECASE re_IGNORECASE] in Hm. cbv zeta in Hm.
  rewrite (unicode_tolower_status_char p Hp) in Hm.
  rewrite (ignorecase_fixes_status_char p Hp) in Hm.
  apply orb_true_iff in Hm as [Hm|Hm].
  - apply N.eqb_eq in Hm. by apply unicode_tolower_py_lower.
  - exfalso. destruct (p =? 115); [|discriminate].
    cbn [existsb] in Hm. rewrite orb_false_r in Hm. apply N.eqb_eq in Hm.
    by apply Hx, unicode_tolower_long_s.
Qed.

Lemma spells_py_lower word value :
  Forall status_char word ->
  spells re_IGNORECASE word value ->
  LONG_S ∉ value ->
  py_lower value = word.
Proof.
  intros Hw Hsp. revert Hw.
  induction Hsp as [|p x word value Hx _ IH]; intros Hw Hv; [done|].
  apply Forall_cons in Hw as [Hp Hw].
  apply not_elem_of_cons in Hv as [Hne Hv].
  unfold py_lower in *. cbn.
  rewrite (lit_match_py_lower p x Hp Hx) by done.
  by rewrite (IH Hw Hv).
Qed.

Lemma status_values_chars word :
  word ∈ status_values -> Forall status_char word.
Proof.
  unfold status_values. intros H.
  repeat (apply elem_of_cons in H as [->|H];
          [apply Forall_forall; intros p Hp; vm_compute in Hp;
           repeat (apply elem_of_cons in Hp as [->|Hp];
                   [first [by right
                          | left; split_and!; [reflexivity | done | done]]|]);
           by apply elem_of_nil in Hp|]).
  by apply elem_of_nil in H.
Qed.

(** Without a long s in the response, the status is one of the three
    values. *)
Lemma status_in_values_without_long_s (nd : char -> bool) (text : str) :
  LONG_S ∉ text ->
  ev_status (parse_response nd (Some text)) ∈ status_values.
Proof.
  intros Hs. rewrite parse_response_text. cbn [ev_status].
  destruct (Sre.search nd re_IGNORECASE status_pattern text) as [m|] eqn:Hm.
  - apply search_Some in Hm as (pre & mid & post & -> & Hm).
    apply matches_status_pattern in Hm
      as (keyword & blank & value & word & -> & _ & _ & Hw & Hv & ->).
    rewrite lookup_insert_eq. change (default [] (Some value)) with value.
    rewrite (spells_py_lower word value); [done| |done|].
    + by apply status_values_chars.
    + intros H. apply Hs. rewrite !elem_of_app. auto.
  - unfold status_values. do 2 (apply elem_of_cons; right).
    apply elem_of_cons. by left.
Qed.

Lemma sentinel_statuses (nd : char -> bool) :
  ev_status (parse_response nd None) = pystr "not-sure"
  /\ ev_status api_error_evaluation = pystr "not-sure".
Proof. done. Qed.

(** C9. A response that spells the status with a long s matches the
    status pattern under [IGNORECASE], and [lower()] leaves the long s as it
    is: the status of the verdict the pipeline produces is none of accepted,
    rejected, not-sure, and the count lookup of the reporter raises
    [KeyError] on it. *)
Theorem long_s_status_outside_enum (nd : char -> bool) :
  let results :=
    (process_entries nd nat long_s_service [example_entry "A"]
       (pystr "CI1: on topic") (pystr "gpt-4o-mini") (mkClient O [])).2 in
  ev_status (parse_response nd (Some long_s_response))
  = (pystr "not-" ++ [LONG_S] ++ pystr "ure")
  /\ status <$> results = [pystr "not-" ++ [LONG_S] ++ pystr "ure"]
  /\ (pystr "not-" ++ [LONG_S] ++ pystr "ure" ∉ status_values)
  /\ calculate_statistics results
     = ([], Raise (KeyError (pystr "not-" ++ [LONG_S] ++ pystr "ure"))).
Proof.
  intros results.
  assert (Hev : parse_response nd (Some long_s_response)
                = mkEvaluation (pystr "not-" ++ [LONG_S] ++ pystr "ure")
                    (pystr "not-specified") []).
  { vm_compute. reflexivity. }
  assert (Hres : results
                 = [verdict_of (example_entry "A")
                      (mkEvaluation (pystr "not-" ++ [LONG_S] ++ pystr "ure")
                         (pystr "not-specified") [])]).
  { subst results. rewrite process_entries_cons. cbn zeta.
    rewrite process_entries_nil. cbn [snd].
    unfold evaluate_entry, long_s_service.
    cbn [snd fst try_except bind lookup list_lookup].
    by rewrite Hev. }
  rewrite Hev, Hres. split_and!.
  - reflexivity.
  - reflexivity.
  - intros Hin. vm_compute in Hin.
    repeat (apply elem_of_cons in Hin as [Hin|Hin]; [discriminate|]).
    by apply elem_of_nil in Hin.
  - vm_compute. reflexivity.
Qed.

(** ** The statistics reporter *)

Lemma for_each_ok {A} (body : A -> result LogRecord) xs :
  (forall x, x ∈ xs -> exists l, body x = Ok l) ->
  (for_each body xs).2 = Ok tt.
Proof.
  induction xs as [|x xs IH]; intros Hbody; [done|].
  cbn [for_each].
  destruct (Hbody x) as [l ->]; [apply elem_of_cons; by left|].
  destruct (for_each body xs) as [ls r] eqn:Hfe. cbn [snd] in *.
  apply IH. intros y Hy. apply Hbody, elem_of_cons. by right.
Qed.

Lemma foldl_count_item results : forall counts criteria_counts,
  (forall k, k ∈ status_values -> is_Some (counts !! k)) ->
  Forall (fun v => status v ∈ status_values) results ->
  exists counts' criteria_counts',
    foldl count_item (Ok (counts, criteria_counts)) results
    = Ok (counts', criteria_counts')
    /\ forall k, k ∈ status_values -> is_Some (counts' !! k).
Proof.
  induction results as [|v results IH]; intros counts cc Hdom Hall.
  - by exists counts, cc.
  - apply Forall_cons in Hall as [Hv Hall]. cbn [foldl].
    destruct (Hdom _ Hv) as [n Hn].
    unfold count_item at 2, getitem. cbn [bind]. rewrite Hn. cbn [bind].
    apply IH; [|done]. intros k Hk.
    destruct (decide (status v = k)) as [->|Hne].
    + rewrite lookup_insert_eq. eauto.
    + rewrite lookup_insert_ne by done. by apply Hdom.
Qed.

(** On verdicts whose statuses are among the three values, and at least
    one of them, the reporter runs to its end. *)
Lemma calculate_statistics_ok results :
  results <> [] ->
  Forall (fun v => status v ∈ status_values) results ->
  (calculate_statistics results).2 = Ok tt.
Proof.
  intros Hne Hall. unfold calculate_statistics.
  destruct (foldl_count_item results initial_counts ∅)
    as (counts & cc & -> & Hdom); [|done|].
  { intros k Hk. unfold status_values in Hk.
    repeat (apply elem_of_cons in Hk as [->|Hk]; [by eexists|]).
    by apply elem_of_nil in Hk. }
  destruct (length results) as [|n] eqn:Hlen.
  { by destruct results. }
  match goal with
  | |- context [for_each ?body ?xs] =>
      pose proof (for_each_ok body xs) as H1;
      destruct (for_each body xs) as [log1 r1]
  end.
  cbn [snd] in H1. rewrite H1.
  - match goal with
    | |- context [for_each ?body ?xs] =>
        pose proof (for_each_ok body xs) as H2;
        destruct (for_each body xs) as [log2 r2]
    end.
    cbn [snd] in *. apply H2. intros [k c] _. eexists. reflexivity.
  - intros k Hk. destruct (Hdom k Hk) as [c Hc].
    unfold getitem. rewrite Hc. eexists. reflexivity.
Qed.

(** C6. On an empty sequence of verdicts the reporter logs its first
    heading and then divides by the total, which is zero: it raises
    [ZeroDivisionError]; there is no guard. *)
Theorem calculate_statistics_empty_raises :
  calculate_statistics []
  = ([LogInfo (LF :: pystr "Final Results:")], Raise ZeroDivisionError).
Proof. vm_compute. reflexivity. Qed.

(** A bibliography without entries reaches the reporter with no
    verdicts: the table is written with its header alone, and the pipeline
    ends with [ZeroDivisionError]. *)
Lemma process_bib_without_entries
    (nd : char -> bool) (Service : Type)
    (chat : Service -> Request -> Service * Outcome)
    (bibtex_load : str -> result (list (gmap str str))) (MODEL_NAME : str)
    (w : World) (c : Client Service)
    (input_path output_path criteria_path criteria_text bib_text : str) :
  open_read w criteria_path = Ok criteria_text ->
  open_read w input_path = Ok bib_text ->
  bibtex_load (translate_newlines bib_text) = Ok [] ->
  output_path ∉ denied w ->
  let run :=
    process_bib nd Service chat bibtex_load MODEL_NAME
      input_path output_path criteria_path (mkMachine Service w c) in
  run.2 = Raise ZeroDivisionError
  /\ files (world Service run.1.1) !! output_path
     = Some (Csv.writerow fieldnames).
Proof.
  intros Hcrit Hbib Hload Hout run. subst run.
  unfold process_bib, log_and_reraise, and_then, load_criteria,
    load_bib_entries, write_results_to_csv, log_and_reraise, and_then, logging.
  cbn [world client]. rewrite Hcrit. cbv beta iota. cbn [world client].
  rewrite Hbib. cbn [bind]. rewrite Hload. cbv beta iota.
  unfold process_entries. cbn [foldl world client].
  unfold open_write. rewrite bool_decide_eq_false_2 by done.
  cbv beta iota. cbn [world client].
  assert (Hstat : calculate_statistics []
                  = ([LogInfo (LF :: pystr "Final Results:")],
                     Raise ZeroDivisionError))
    by (vm_compute; reflexivity).
  rewrite Hstat. cbv beta iota. cbn [fst snd world files].
  split; [reflexivity|].
  rewrite lookup_insert_eq. unfold results_csv_text.
  change ([] ≫= _) with (@nil N). by rewrite app_nil_r.
Qed.

(** ** The entry points *)

(** The script of the classifier ends normally whatever the pipeline
    does. *)
Lemma survey_classifier_main_ends_normally
    (nd : char -> bool) (Service : Type)
    (chat : Service -> Request -> Service * Outcome)
    (bibtex_load : str -> result (list (gmap str str))) (MODEL_NAME : str)
    (args : ClassifierArgs) (m : Machine Service) :
  (survey_classifier_main nd Service chat bibtex_load MODEL_NAME args m).2
  = Ok tt.
Proof.
  unfold survey_classifier_main.
  destruct (process_bib _ _ _ _ _ _ _ _ m) as [[m1 log1] [[]|e]]; reflexivity.
Qed.

(** The script of the filter lets the failure of a prerequisite through:
    a results table or a bibliography that cannot be read, an output that
    cannot be written. *)
Lemma generate_accepted_bib_main_propagates
    (bibtex_load : str -> result (list (gmap str str)))
    (bibtex_dump : list (gmap str str) -> str)
    (args : FilterArgs) (w : World) :
  (forall e,
     open_read w (arg_results args) = Raise e ->
     (generate_accepted_bib_main bibtex_load bibtex_dump args w).2 = Raise e)
  /\ (forall csv_content keys e,
       open_read w (arg_results args) = Ok csv_content ->
       load_accepted_keys (Csv.dict_reader (text_lines csv_content)) = Ok keys ->
       open_read w (arg_original args) = Raise e ->
       (generate_accepted_bib_main bibtex_load bibtex_dump args w).2 = Raise e)
  /\ (forall csv_content keys bib_content entries,
       open_read w (arg_results args) = Ok csv_content ->
       load_accepted_keys (Csv.dict_reader (text_lines csv_content)) = Ok keys ->
       open_read w (arg_original args) = Ok bib_content ->
       bibtex_load (translate_newlines bib_content) = Ok entries ->
       arg_accepted args ∈ denied w ->
       (generate_accepted_bib_main bibtex_load bibtex_dump args w).2
       = Raise PermissionError).
Proof.
  unfold generate_accepted_bib_main, create_accepted_bib, log_and_reraise,
    and_then, lift.
  split_and!.
  - intros e ->. reflexivity.
  - intros csv_content keys e -> -> ->. reflexivity.
  - intros csv_content keys bib_content entries -> -> -> -> Hden.
    unfold open_write. by rewrite bool_decide_eq_true_2.
Qed.

(** C7. With no file at all, the pipeline of the classifier raises
    [FileNotFoundError] for the criteria, and the script catches it, logs
    it and ends normally: exit status 0. The script of the filter lets the
    same failure through: exit status 1. *)
Theorem classifier_exits_zero_on_fatal_failure
    (nd : char -> bool) (Service : Type)
    (chat : Service -> Request -> Service * Outcome)
    (bibtex_load : str -> result (list (gmap str str)))
    (bibtex_dump : list (gmap str str) -> str) (MODEL_NAME : str)
    (c : Client Service) :
  let args :=
    mkClassifierArgs (pystr "input.bib") (pystr "results.csv")
      (pystr "criteria.md") in
  let m := mkMachine Service empty_world c in
  (process_bib nd Service chat bibtex_load MODEL_NAME
     (arg_input args) (arg_output args) (arg_criteria args) m).2
  = Raise FileNotFoundError
  /\ exit_status
       (survey_classifier_main nd Service chat bibtex_load MODEL_NAME args m).2
     = 0%nat
  /\ exit_status
       (generate_accepted_bib_main bibtex_load bibtex_dump
          (mkFilterArgs (pystr "input.bib") (pystr "results.csv")
             (pystr "accepted.bib"))
          empty_world).2
     = 1%nat.
Proof.
  intros args m. repeat split.
Qed.

(** ** The bibliography filter *)

Lemma add_accepted_well_formed acc row :
  well_formed_row row ->
  exists keys,
    add_accepted (Ok acc) row = Ok keys
    /\ forall k, k ∈ keys
         <-> k ∈ acc
             \/ (row !! pystr "citekey" = Some k
                 /\ match row !! pystr "status" with
                    | Some (Some status) => py_lower status = pystr "accepted"
                    | _ => False
                    end).
Proof.
  intros [[status Hst] [key Hkey]].
  unfold add_accepted, getitem. cbn [bind]. rewrite Hst. cbn [bind].
  case_bool_decide as Hacc.
  - rewrite Hkey. cbn [bind]. eexists. split; [done|].
    intros k. rewrite elem_of_union, elem_of_singleton. split.
    + intros [->|H]; [right|left]; done.
    + intros [H|[[= ->] _]]; [right|left]; done.
  - eexists. split; [done|]. intros k. split; [by left|].
    intros [H|[_ H]]; done.
Qed.

Lemma foldl_add_accepted rows : forall acc,
  Forall well_formed_row rows ->
  exists keys,
    foldl add_accepted (Ok acc) rows = Ok keys
    /\ forall k, k ∈ keys
         <-> k ∈ acc
             \/ Exists (fun row =>
                   row !! pystr "citekey" = Some k
                   /\ match row !! pystr "status" with
                      | Some (Some status) =>
                          py_lower status = pystr "accepted"
                      | _ => False
                      end) rows.
Proof.
  induction rows as [|row rows IH]; intros acc Hwf.
  - exists acc. split; [done|]. intros k. rewrite Exists_nil. tauto.
  - apply Forall_cons in Hwf as [Hrow Hwf].
    destruct (add_accepted_well_formed acc row Hrow) as (keys1 & H1 & Hk1).
    destruct (IH keys1 Hwf) as (keys & H & Hk).
    exists keys. split; [cbn [foldl]; by rewrite H1|].
    intros k. rewrite Hk, Hk1, Exists_cons. tauto.
Qed.

Lemma filter_accepted_selected rows keys entries :
  (forall k, k ∈ keys
     <-> Exists (fun row =>
           row !! pystr "citekey" = Some k
           /\ match row !! pystr "status" with
              | Some (Some status) => py_lower status = pystr "accepted"
              | _ => False
              end) rows) ->
  filter_accepted keys entries = filter (selected rows) entries.
Proof.
  intros Hk. unfold filter_accepted. apply list_filter_iff.
  intros entry. by rewrite Hk.
Qed.



Example accepted_example :
  filter (selected example_rows) example_bibliography
  = [example_entry "A"; example_entry "C"].
Proof. vm_compute. reflexivity. Qed.

(** ** The results table *)

Lemma feed_app r a b :
  Csv.feed r (a ++ b) = (let* r' := Csv.feed r a in Csv.feed r' b).
Proof.
  revert r. induction a as [|i a IH]; intros r; [done|].
  cbn [app Csv.feed].
  destruct (Csv.parse_process_char r i) as [r'|e]; [apply IH | done].
Qed.

Lemma feed_snoc r a i :
  Csv.feed r (a ++ [i])
  = (let* r' := Csv.feed r a in Csv.parse_process_char r' i).
Proof.
  rewrite feed_app. destruct (Csv.feed r a) as [r'|e]; [|done].
  cbn. by destruct (Csv.parse_process_char r' i).
Qed.

Lemma chars_reverse_cons c cur :
  map Csv.Ch (reverse (c :: cur)) = map Csv.Ch (reverse cur) ++ [Csv.Ch c].
Proof. by rewrite reverse_cons, map_app. Qed.

(** A line whose beginning the reader rejects is rejected. *)
Lemma records_raise text : forall cur r e,
  Csv.feed r (map Csv.Ch (reverse cur)) = Raise e ->
  Csv.records r (lines_from cur text) = ([], Some e).
Proof.
  induction text as [|c text IH]; intros cur r e Hfeed.
  - cbn [lines_from]. destruct cur as [|x cur]; [discriminate|].
    cbn [Csv.records]. by rewrite feed_app, Hfeed.
  - cbn [lines_from]. destruct (c =? LF).
    + cbn [Csv.records].
      by rewrite feed_app, chars_reverse_cons, feed_app, Hfeed.
    + apply IH. by rewrite chars_reverse_cons, feed_app, Hfeed.
Qed.

(** Cutting the text into lines and feeding them is feeding the text. *)
Lemma records_stream text : forall cur r r',
  terminated cur text ->
  Csv.feed r (map Csv.Ch (reverse cur)) = Ok r' ->
  Csv.records r (lines_from cur text) = stream r' text.
Proof.
  induction text as [|c text IH]; intros cur r r' Hterm Hfeed.
  - unfold terminated in Hterm. cbn in Hterm. subst cur.
    cbn in Hfeed. by injection Hfeed as ->.
  - cbn [lines_from stream]. destruct (c =? LF) eqn:Hc.
    + cbn [Csv.records].
      rewrite feed_snoc, chars_reverse_cons, feed_snoc, Hfeed. cbn [bind].
      destruct (Csv.parse_process_char r' (Csv.Ch c)) as [r1|e]; [|done].
      cbn [bind].
      destruct (Csv.parse_process_char r1 Csv.EOL) as [r2|e]; [|done].
      assert (Hterm' : terminated [] text).
      { unfold terminated in *. destruct text as [|x text]; [done|].
        rewrite last_cons_cons in Hterm.
        by destruct (last (x :: text)). }
      case_bool_decide.
      * by rewrite (IH [] Csv.parse_reset Csv.parse_reset Hterm' eq_refl).
      * by apply IH.
    + destruct (Csv.parse_process_char r' (Csv.Ch c)) as [r1|e] eqn:Hstep.
      * apply IH.
        -- unfold terminated in *. destruct text as [|x text].
           ++ cbn in Hterm. subst c. discriminate.
           ++ rewrite last_cons_cons in Hterm.
              destruct (last (x :: text)) eqn:Hl; [done|].
              by apply last_None in Hl.
        -- by rewrite chars_reverse_cons, feed_snoc, Hfeed.
      * apply records_raise.
        by rewrite chars_reverse_cons, feed_snoc, Hfeed.
Qed.

Lemma reader_rows_stream text :
  terminated [] text ->
  Csv.reader_rows (lines_from [] text) = stream Csv.parse_reset text.
Proof. intros H. by apply records_stream. Qed.

Lemma special_false c :
  Csv.special c = false ->
  (c =? COMMA) = false /\ (c =? DQUOTE) = false
  /\ (c =? CR) = false /\ (c =? LF) = false.
Proof.
  unfold Csv.special. intros H.
  repeat (apply orb_false_iff in H as [H ?]). done.
Qed.

Lemma stream_cons r c r1 text :
  Csv.parse_process_char r (Csv.Ch c) = Ok r1 ->
  (c =? LF) = false ->
  stream r (c :: text) = stream r1 text.
Proof. intros H Hc. cbn [stream]. by rewrite H, Hc. Qed.

Lemma stream_cons_LF r r1 r2 text :
  Csv.parse_process_char r (Csv.Ch LF) = Ok r1 ->
  Csv.parse_process_char r1 Csv.EOL = Ok r2 ->
  stream r (LF :: text)
  = if bool_decide (Csv.st r2 = Csv.START_RECORD)
    then let '(rows, e) := stream Csv.parse_reset text in
         (Csv.fields r2 :: rows, e)
    else stream r2 text.
Proof. intros H1 H2. cbn [stream]. by rewrite H1, N.eqb_refl, H2. Qed.

Lemma stream_plain_in_field f : forall fld flds rest,
  Forall (fun c => Csv.special c = false) f ->
  stream (Csv.mkReader Csv.IN_FIELD fld flds) (f ++ rest)
  = stream (Csv.mkReader Csv.IN_FIELD (fld ++ f) flds) rest.
Proof.
  induction f as [|c f IH]; intros fld flds rest Hf.
  - by rewrite app_nil_r.
  - apply Forall_cons in Hf as [Hc Hf].
    apply special_false in Hc as (Hcomma & _ & Hcr & Hlf).
    cbn [app].
    rewrite (stream_cons _ c (Csv.mkReader Csv.IN_FIELD (fld ++ [c]) flds)).
    + rewrite (IH _ _ _ Hf). by rewrite <- app_assoc.
    + unfold Csv.parse_process_char. cbn [Csv.st Csv.is_newline].
      by rewrite Hlf, Hcr, Hcomma.
    + done.
Qed.

Lemma stream_quoted_body body : forall fld flds rest,
  stream (Csv.mkReader Csv.IN_QUOTED_FIELD fld flds)
    ((body ≫= Csv.escape) ++ DQUOTE :: rest)
  = stream (Csv.mkReader Csv.QUOTE_IN_QUOTED_FIELD (fld ++ body) flds) rest.
Proof.
  induction body as [|c body IH]; intros fld flds rest.
  - rewrite app_nil_r. by apply stream_cons.
  - change ((c :: body) ≫= Csv.escape)
      with (Csv.escape c ++ (body ≫= Csv.escape)).
    rewrite <- app_assoc. unfold Csv.escape at 1.
    destruct (c =? DQUOTE) eqn:Hq.
    + apply N.eqb_eq in Hq as ->. cbn [app].
      rewrite (stream_cons _ DQUOTE
                 (Csv.mkReader Csv.QUOTE_IN_QUOTED_FIELD fld flds))
        by done.
      rewrite (stream_cons _ DQUOTE
                 (Csv.mkReader Csv.IN_QUOTED_FIELD (fld ++ [DQUOTE]) flds))
        by done.
      rewrite IH. by rewrite <- app_assoc.
    + cbn [app].
      assert (Hstep :
        Csv.parse_process_char (Csv.mkReader Csv.IN_QUOTED_FIELD fld flds)
          (Csv.Ch c)
        = Ok (Csv.mkReader Csv.IN_QUOTED_FIELD (fld ++ [c]) flds)).
      { unfold Csv.parse_process_char. cbn [Csv.st]. by rewrite Hq. }
      destruct (c =? LF) eqn:Hlf.
      * apply N.eqb_eq in Hlf as ->.
        rewrite (stream_cons_LF _ _ _ _ Hstep eq_refl).
        cbn [Csv.st]. rewrite bool_decide_eq_false_2 by done.
        rewrite IH. by rewrite <- app_assoc.
      * rewrite (stream_cons _ _ _ _ Hstep Hlf).
        rewrite IH. by rewrite <- app_assoc.
Qed.

Lemma stream_field_comma f r rest :
  at_field_start r ->
  stream r (Csv.write_field f ++ COMMA :: rest)
  = stream (Csv.mkReader Csv.START_FIELD [] (Csv.fields r ++ [f])) rest.
Proof.
  destruct r as [s fld flds]. intros [Hfld Hs]. cbn in Hfld, Hs. subst fld.
  unfold Csv.write_field. destruct (existsb Csv.special f) eqn:Hsp.
  - rewrite <- app_comm_cons, <- app_assoc. cbn [app].
    transitivity (stream (Csv.mkReader Csv.IN_QUOTED_FIELD [] flds)
                    ((f ≫= Csv.escape) ++ DQUOTE :: COMMA :: rest)).
    { by destruct Hs as [-> | ->]. }
    rewrite stream_quoted_body. reflexivity.
  - destruct f as [|c f].
    + by destruct Hs as [-> | ->].
    + cbn in Hsp. apply orb_false_iff in Hsp as [Hc Hf].
      assert (Hall : Forall (fun c => Csv.special c = false) f).
      { apply Forall_forall. intros x Hx. apply list_elem_of_In in Hx.
        destruct (Csv.special x) eqn:Hx'; [|done].
        assert (existsb Csv.special f = true); [|congruence].
        apply existsb_exists. eauto. }
      pose proof (special_false c Hc) as (Hcomma & Hquote & Hcr & Hlf).
      rewrite <- app_comm_cons.
      transitivity (stream (Csv.mkReader Csv.IN_FIELD [c] flds)
                      (f ++ COMMA :: rest)).
      { cbn [stream]. rewrite Hlf.
        destruct Hs as [-> | ->]; unfold Csv.parse_process_char;
          cbn [Csv.st]; unfold Csv.start_field; cbn [Csv.is_newline];
          rewrite ?Hlf, ?Hcr, ?Hquote, ?Hcomma; reflexivity. }
      rewrite (stream_plain_in_field f _ _ _ Hall). reflexivity.
Qed.

Lemma stream_field_newline f flds rest :
  stream (Csv.mkReader Csv.START_FIELD [] flds)
    (Csv.write_field f ++ LF :: rest)
  = (let '(rows, e) := stream Csv.parse_reset rest in
     ((flds ++ [f]) :: rows, e)).
Proof.
  unfold Csv.write_field. destruct (existsb Csv.special f) eqn:Hsp.
  - rewrite <- app_comm_cons, <- app_assoc. cbn [app].
    transitivity (stream (Csv.mkReader Csv.IN_QUOTED_FIELD [] flds)
                    ((f ≫= Csv.escape) ++ DQUOTE :: LF :: rest)).
    { reflexivity. }
    rewrite stream_quoted_body. reflexivity.
  - destruct f as [|c f].
    + reflexivity.
    + cbn in Hsp. apply orb_false_iff in Hsp as [Hc Hf].
      assert (Hall : Forall (fun c => Csv.special c = false) f).
      { apply Forall_forall. intros x Hx. apply list_elem_of_In in Hx.
        destruct (Csv.special x) eqn:Hx'; [|done].
        assert (existsb Csv.special f = true); [|congruence].
        apply existsb_exists. eauto. }
      pose proof (special_false c Hc) as (Hcomma & Hquote & Hcr & Hlf).
      rewrite <- app_comm_cons.
      transitivity (stream (Csv.mkReader Csv.IN_FIELD [c] flds)
                      (f ++ LF :: rest)).
      { cbn [stream]. rewrite Hlf.
        unfold Csv.parse_process_char;
          cbn [Csv.st]; unfold Csv.start_field; cbn [Csv.is_newline];
          rewrite ?Hlf, ?Hcr, ?Hquote, ?Hcomma; reflexivity. }
      rewrite (stream_plain_in_field f _ _ _ Hall). reflexivity.
Qed.

Lemma stream_fields fs : forall flds rest,
  fs <> [] ->
  stream (Csv.mkReader Csv.START_FIELD [] flds)
    (Csv.join_fields fs ++ LF :: rest)
  = (let '(rows, e) := stream Csv.parse_reset rest in
     ((flds ++ fs) :: rows, e)).
Proof.
  induction fs as [|f fs IH]; intros flds rest Hne; [done|].
  destruct fs as [|f' fs].
  - cbn [Csv.join_fields]. apply stream_field_newline.
  - change (Csv.join_fields (f :: f' :: fs))
      with (Csv.write_field f ++ COMMA :: Csv.join_fields (f' :: fs)).
    rewrite <- app_assoc, <- app_comm_cons.
    rewrite stream_field_comma by (split; [done | by left]).
    cbn [Csv.fields]. rewrite IH by done.
    by rewrite <- app_assoc.
Qed.

(** A record of two fields or more is read back from its line. *)
Lemma stream_row f1 f2 fs rest :
  stream Csv.parse_reset (Csv.join_fields (f1 :: f2 :: fs) ++ LF :: rest)
  = (let '(rows, e) := stream Csv.parse_reset rest in
     ((f1 :: f2 :: fs) :: rows, e)).
Proof.
  change (Csv.join_fields (f1 :: f2 :: fs))
    with (Csv.write_field f1 ++ COMMA :: Csv.join_fields (f2 :: fs)).
  rewrite <- app_assoc, <- app_comm_cons.
  rewrite stream_field_comma by (split; [done | by right]).
  cbn [Csv.fields Csv.parse_reset app]. by rewrite stream_fields.
Qed.

Lemma translate_newlines_cr_free a rest :
  CR ∉ a ->
  translate_newlines (a ++ CR :: LF :: rest)
  = a ++ LF :: translate_newlines rest.
Proof.
  induction a as [|c a IH]; intros Ha.
  - reflexivity.
  - apply not_elem_of_cons in Ha as [Hc Ha].
    cbn [app translate_newlines].
    destruct (N.eqb_spec c CR) as [->|_]; [done|].
    by rewrite (IH Ha).
Qed.

Lemma escape_cr_free f : CR ∉ f -> CR ∉ f ≫= Csv.escape.
Proof.
  induction f as [|c f IH]; intros Hf; [done|].
  apply not_elem_of_cons in Hf as [Hc Hf].
  change ((c :: f) ≫= Csv.escape) with (Csv.escape c ++ (f ≫= Csv.escape)).
  rewrite elem_of_app. intros [H|H]; [|by apply IH].
  unfold Csv.escape in H. destruct (c =? DQUOTE).
  - repeat (apply elem_of_cons in H as [H|H]; [discriminate|]).
    by apply elem_of_nil in H.
  - apply elem_of_cons in H as [H|H]; [done|]. by apply elem_of_nil in H.
Qed.

Lemma write_field_cr_free f : CR ∉ f -> CR ∉ Csv.write_field f.
Proof.
  intros Hf. unfold Csv.write_field. destruct (existsb Csv.special f); [|done].
  rewrite not_elem_of_cons, elem_of_app. split; [done|].
  intros [H|H]; [by apply (escape_cr_free f Hf)|].
  apply elem_of_cons in H as [H|H]; [discriminate|]. by apply elem_of_nil in H.
Qed.

Lemma join_fields_cr_free fs :
  Forall (fun f : str => CR ∉ f) fs -> CR ∉ Csv.join_fields fs.
Proof.
  induction fs as [|f fs IH]; intros Hfs; [apply not_elem_of_nil|].
  apply Forall_cons in Hfs as [Hf Hfs].
  destruct fs as [|f' fs]; [by apply write_field_cr_free|].
  change (Csv.join_fields (f :: f' :: fs))
    with (Csv.write_field f ++ COMMA :: Csv.join_fields (f' :: fs)).
  rewrite elem_of_app, elem_of_cons.
  intros [H|[H|H]]; [by apply (write_field_cr_free f Hf) | discriminate |].
  by apply IH.
Qed.

Lemma writerow_wide fs :
  (2 <= length fs)%nat -> Csv.writerow fs = Csv.join_fields fs ++ [CR; LF].
Proof.
  destruct fs as [|f1 [|f2 fs]]; cbn [length]; try lia.
  intros _. by destruct f1.
Qed.

Lemma translate_rows rows :
  Forall plain_record rows ->
  translate_newlines (rows ≫= Csv.writerow) = rows_text rows.
Proof.
  induction rows as [|fs rows IH]; intros Hrows; [done|].
  apply Forall_cons in Hrows as [[Hlen Hcr] Hrows].
  change ((fs :: rows) ≫= Csv.writerow)
    with (Csv.writerow fs ++ (rows ≫= Csv.writerow)).
  rewrite (writerow_wide fs Hlen), <- app_assoc. cbn [app].
  rewrite translate_newlines_cr_free by by apply join_fields_cr_free.
  rewrite (IH Hrows). unfold rows_text at 2.
  change ((fs :: rows) ≫= (fun fs => Csv.join_fields fs ++ [LF]))
    with ((Csv.join_fields fs ++ [LF]) ++ rows_text rows).
  by rewrite <- app_assoc.
Qed.

Lemma stream_rows rows :
  Forall (fun fs : list str => (2 <= length fs)%nat) rows ->
  stream Csv.parse_reset (rows_text rows) = (rows, None).
Proof.
  induction rows as [|fs rows IH]; intros Hrows; [done|].
  apply Forall_cons in Hrows as [Hlen Hrows].
  change (rows_text (fs :: rows))
    with ((Csv.join_fields fs ++ [LF]) ++ rows_text rows).
  rewrite <- app_assoc. cbn [app].
  destruct fs as [|f1 [|f2 fs]]; cbn [length] in Hlen; try lia.
  rewrite stream_row, (IH Hrows). reflexivity.
Qed.

Lemma terminated_rows_text rows : terminated [] (rows_text rows).
Proof.
  unfold terminated. induction rows as [|fs rows IH] using rev_ind; [done|].
  unfold rows_text. rewrite bind_app. cbn. rewrite app_nil_r, app_assoc.
  by rewrite last_snoc.
Qed.

(** The table of records without carriage returns is read back as it was
    written, through a file opened with universal newlines. *)
Lemma reader_rows_written rows :
  Forall plain_record rows ->
  Csv.reader_rows (text_lines (rows ≫= Csv.writerow)) = (rows, None).
Proof.
  intros Hrows. unfold text_lines. rewrite (translate_rows rows Hrows).
  rewrite reader_rows_stream by apply terminated_rows_text.
  apply stream_rows. eapply Forall_impl; [exact Hrows|]. by intros fs [H _].
Qed.

Lemma results_csv_text_rows results :
  results_csv_text results
  = (fieldnames :: (verdict_fields <$> results)) ≫= Csv.writerow.
Proof.
  unfold results_csv_text.
  change ((fieldnames :: (verdict_fields <$> results)) ≫= Csv.writerow)
    with (Csv.writerow fieldnames
          ++ ((verdict_fields <$> results) ≫= Csv.writerow)).
  f_equal. induction results as [|v results IH]; [done|].
  cbn. by rewrite <- IH.
Qed.

(** The round trip through the table, as the filter reads it: verdicts
    without a carriage return in any field come back field for field,
    whatever commas, quotes and line feeds they hold. *)
Lemma results_table_read_back (results : list Verdict) :
  Forall cr_free results ->
  Csv.dict_reader (text_lines (results_csv_text results))
  = (verdict_row <$> results, None).
Proof.
  intros Hfree. unfold Csv.dict_reader.
  rewrite results_csv_text_rows, reader_rows_written.
  - f_equal. induction results as [|v results IH]; [done|].
    apply Forall_cons in Hfree as [_ Hfree].
    cbn [fmap list_fmap]. rewrite filter_cons_True by done.
    cbn [map]. f_equal. by apply IH.
  - apply Forall_cons. split.
    + split; [cbn; lia|]. unfold fieldnames.
      repeat (apply Forall_cons; split;
              [intros H; vm_compute in H;
               repeat (apply elem_of_cons in H as [H|H]; [discriminate|]);
               by apply elem_of_nil in H|]).
      apply Forall_nil. done.
    + apply Forall_fmap. eapply Forall_impl; [exact Hfree|].
      intros v Hv. split; [cbn; lia | exact Hv].
Qed.


(** With a carriage return the hypothesis cannot be dropped. A reasoning
    with a CR LF line break is written quoted, as it is; the filter opens
    the table with universal newlines, so its reader sees LF alone, and the
    row it gets differs from the verdict in the reasoning, a field the
    filter does not look at. *)
Lemma carriage_return_translated :
  reasoning crlf_verdict
  = (pystr "on topic," ++ [CR; LF] ++ pystr "with data")
  /\ Csv.dict_reader (text_lines (results_csv_text [crlf_verdict]))
     = ([verdict_row lf_verdict], None)
  /\ verdict_row lf_verdict !! pystr "reasoning"
     = Some (Some (pystr "on topic," ++ [LF] ++ pystr "with data"))
  /\ verdict_row lf_verdict <> verdict_row crlf_verdict.
Proof.
  split_and!; try (vm_compute; reflexivity).
  intros H. apply (f_equal (fun d => d !! pystr "reasoning")) in H.
  vm_compute in H. discriminate.
Qed.

(** ** The results table, read without translation *)























(** ** More of the evaluation pipeline *)

Section MorePipelineFacts.
Context (nd : char -> bool) {Service : Type}.
Context (chat : Service -> Request -> Service * Outcome).

(** What one evaluation is, read off the outcome of its one call. *)
Lemma evaluate_entry_run title abstract criteria_content model_name c :
  let request :=
    mkRequest model_name system_message
      (prompt criteria_content title abstract) in
  let call := chat (service c) request in
  evaluate_entry nd Service chat title abstract criteria_content model_name c
  = (mkClient call.1 (sent c ++ [request]),
     match call.2 with
     | Failed _ => api_error_evaluation
     | Completed [] => api_error_evaluation
     | Completed (content :: _) => parse_response nd content
     end).
Proof.
  intros request call. subst call request. unfold evaluate_entry.
  destruct (chat _ _) as [svc [e|[|content choices]]]; reflexivity.
Qed.

(** X1. One evaluation makes exactly one call, with the model name, the
    fixed system message and the prompt of the entry, and records it. A
    call that raises and a response without choices both give the
    api-error sentinel; otherwise the evaluation is what the parser makes
    of the content of the first choice, and the other choices are not
    looked at. *)
Theorem evaluate_entry_reads_first_choice
    (title abstract criteria_content model_name : str) (c : Client Service) :
  let request :=
    mkRequest model_name system_message
      (prompt criteria_content title abstract) in
  let call := chat (service c) request in
  let run :=
    evaluate_entry nd Service chat title abstract criteria_content
      model_name c in
  run.1 = mkClient call.1 (sent c ++ [request])
  /\ (forall e, call.2 = Failed e -> run.2 = api_error_evaluation)
  /\ (call.2 = Completed [] -> run.2 = api_error_evaluation)
  /\ (forall content choices,
       call.2 = Completed (content :: choices) ->
       run.2 = parse_response nd content).
Proof.
  intros request call run. subst run.
  rewrite evaluate_entry_run. cbn zeta. fold request. fold call.
  cbn [fst snd]. split_and!.
  - reflexivity.
  - by intros e ->.
  - by intros ->.
  - by intros content choices ->.
Qed.

(** X2. The pipeline makes exactly one call per entry, in the order of
    the entries, each with the same model name and system message and with
    the prompt of its entry; a call that fails is not repeated and no entry
    is skipped. *)
Theorem process_entries_one_request_per_entry
    (entries : list (gmap str str)) (criteria_content model_name : str)
    (c : Client Service) :
  let run :=
    process_entries nd Service chat entries criteria_content model_name c in
  sent run.1 = sent c ++ (request_of criteria_content model_name <$> entries)
  /\ length (sent run.1) = (length (sent c) + length entries)%nat
  /\ Forall (fun request =>
               req_model request = model_name
               /\ req_system request = system_message)
       (request_of criteria_content model_name <$> entries).
Proof.
  intros run. subst run. rewrite process_entries_sent. split_and!.
  - reflexivity.
  - by rewrite length_app, length_fmap.
  - apply Forall_fmap, Forall_forall. by intros entry _.
Qed.

(** X3. The pipeline can be run in batches: the entries of a first batch
    and then those of a second, from the state the client is left in, give
    the verdicts and the client that the whole list gives at once. *)
Theorem process_entries_in_batches
    (first second : list (gmap str str)) (criteria_content model_name : str)
    (c : Client Service) :
  let run1 :=
    process_entries nd Service chat first criteria_content model_name c in
  let run2 :=
    process_entries nd Service chat second criteria_content model_name
      run1.1 in
  process_entries nd Service chat (first ++ second) criteria_content
    model_name c
  = (run2.1, run1.2 ++ run2.2).
Proof. intros run1 run2. apply process_entries_app. Qed.

Lemma evaluate_entry_status title abstract criteria_content model_name c :
  answers_without_long_s chat ->
  ev_status
    (evaluate_entry nd Service chat title abstract criteria_content
       model_name c).2
  ∈ status_values.
Proof.
  intros Hchat. rewrite evaluate_entry_run. cbn zeta. cbn [snd].
  assert (Hns : pystr "not-sure" ∈ status_values).
  { unfold status_values. do 2 (apply elem_of_cons; right).
    apply elem_of_cons. by left. }
  destruct (chat _ _) as [svc outcome] eqn:Hcall. cbn [snd].
  destruct outcome as [e|[|[content|] choices]]; try exact Hns.
  apply status_in_values_without_long_s.
  eapply Hchat. rewrite Hcall. reflexivity.
Qed.

Lemma process_entries_statuses entries criteria_content model_name c :
  answers_without_long_s chat ->
  Forall (fun v => status v ∈ status_values)
    (process_entries nd Service chat entries criteria_content model_name c).2.
Proof.
  intros Hchat. revert c.
  induction entries as [|entry entries IH]; intros c.
  - constructor.
  - rewrite process_entries_cons. cbn zeta. cbn [snd].
    constructor; [|apply IH].
    cbn [verdict_of status]. by apply evaluate_entry_status.
Qed.

(** X4. As long as the service does not put a long s (U+017F) in its
    answers, every verdict of the pipeline has one of the three statuses
    accepted, rejected, not-sure, whatever else the answers hold and
    whichever calls fail. *)
Theorem process_entries_status_values
    (entries : list (gmap str str)) (criteria_content model_name : str)
    (c : Client Service) :
  answers_without_long_s chat ->
  Forall (fun v => status v ∈ status_values)
    (process_entries nd Service chat entries criteria_content model_name c).2.
Proof. apply process_entries_statuses. Qed.
End MorePipelineFacts.

Lemma evaluate_entry_reads_first_choice_witness :
  let c := mkClient O [] in
  let request :=
    mkRequest (pystr "gpt-4o-mini") system_message
      (prompt (pystr "CI1: on topic") (pystr "A title")
         (pystr "An abstract")) in
  ((two_choice_service O request).2
   = Completed [Some (pystr "Criteria: CX2"); Some (pystr "Status: accepted")]
   /\ (evaluate_entry no_other_digits nat two_choice_service (pystr "A title")
         (pystr "An abstract") (pystr "CI1: on topic") (pystr "gpt-4o-mini")
         c).2
      = parse_response no_other_digits (Some (pystr "Criteria: CX2")))
  /\ ((no_choice_service O request).2 = Completed []
      /\ (evaluate_entry no_other_digits nat no_choice_service
            (pystr "A title") (pystr "An abstract") (pystr "CI1: on topic")
            (pystr "gpt-4o-mini") c).2
         = api_error_evaluation)
  /\ ((example_service O request).2 = Failed ServiceError
      /\ (evaluate_entry no_other_digits nat example_service
            (pystr "A title") (pystr "An abstract") (pystr "CI1: on topic")
            (pystr "gpt-4o-mini") c).2
         = api_error_evaluation).
Proof.
  intros c request. split_and!.
  - reflexivity.
  - exact (proj2 (proj2 (proj2
             (evaluate_entry_reads_first_choice no_other_digits
                two_choice_service (pystr "A title") (pystr "An abstract")
                (pystr "CI1: on topic") (pystr "gpt-4o-mini") c)))
             _ _ eq_refl).
  - reflexivity.
  - exact (proj1 (proj2 (proj2
             (evaluate_entry_reads_first_choice no_other_digits
                no_choice_service (pystr "A title") (pystr "An abstract")
                (pystr "CI1: on topic") (pystr "gpt-4o-mini") c)))
             eq_refl).
  - reflexivity.
  - exact (proj1 (proj2
             (evaluate_entry_reads_first_choice no_other_digits
                example_service (pystr "A title") (pystr "An abstract")
                (pystr "CI1: on topic") (pystr "gpt-4o-mini") c))
             ServiceError eq_refl).
Defined.

Lemma example_service_without_long_s : answers_without_long_s example_service.
Proof.
  intros svc request content choices H.
  destruct svc as [|[|n]]; try discriminate.
  cbn in H. injection H as <- _.
  intros Hin. vm_compute in Hin.
  repeat (apply elem_of_cons in Hin as [Hin|Hin]; [discriminate|]).
  by apply elem_of_nil in Hin.
Qed.

Lemma process_entries_status_values_witness :
  answers_without_long_s example_service
  /\ Forall (fun v => status v ∈ status_values)
       (process_entries no_other_digits nat example_service example_entries
          (pystr "CI1: on topic") (pystr "gpt-4o-mini") (mkClient O [])).2.
Proof.
  split; [exact example_service_without_long_s|].
  exact (process_entries_status_values no_other_digits example_service
           example_entries (pystr "CI1: on topic") (pystr "gpt-4o-mini")
           (mkClient O []) example_service_without_long_s).
Defined.

(** ** More of the pattern engine: the match [re.search] returns *)

Section MoreEngineFacts.
Context (nd : char -> bool) (fl : Sre.flags).

(** The repetition takes all it can when the rest of the pattern accepts
    what is left. *)
Lemma repeat_greedy_longest {A} a s1 s2 (k : str -> option A) m :
  Forall (fun x => Sre.atom_match nd fl a x = true) s1 ->
  match s2 with
  | [] => True
  | c :: _ => Sre.atom_match nd fl a c = false
  end ->
  k s2 = Some m ->
  Sre.repeat_greedy nd fl a (s1 ++ s2) k = Some m.
Proof.
  intros Hall Hstop Hk. induction Hall as [|x s1 Hx _ IH].
  - destruct s2 as [|c s2]; simpl; [done|]. by rewrite Hstop.
  - simpl. by rewrite Hx, IH.
Qed.

Lemma repeat_greedy_all {A} a s (k : str -> option A) m :
  Forall (fun x => Sre.atom_match nd fl a x = true) s ->
  k [] = Some m ->
  Sre.repeat_greedy nd fl a s k = Some m.
Proof.
  intros Hall Hk.
  pose proof (repeat_greedy_longest a s [] k m Hall I Hk) as H.
  by rewrite app_nil_r in H.
Qed.

Lemma match_here_literal word s1 s2 caps k :
  spells fl word s1 ->
  Sre.match_here nd fl (Sre.literal word) (s1 ++ s2) caps k = k s2 caps.
Proof.
  intros Hsp. induction Hsp as [|p x word s1 Hx _ IH]; [done|].
  cbn [Sre.literal Sre.match_here app Sre.atom_match].
  by rewrite Hx.
Qed.

Lemma match_here_literal_mismatch word s caps k :
  (forall s1 s2, s = s1 ++ s2 -> ~ spells fl word s1) ->
  Sre.match_here nd fl (Sre.literal word) s caps k = None.
Proof.
  intros H. apply match_here_None. intros s1 s2 caps' Hs Hm.
  apply matches_literal in Hm as [Hsp _]. by destruct (H s1 s2 Hs).
Qed.

(** [re.search] returns the match at the first position where the
    pattern matches. *)
Lemma search_leftmost r pre suf m :
  (forall pre1 suf1,
     pre = pre1 ++ suf1 -> suf1 <> [] ->
     Sre.match_here nd fl r (suf1 ++ suf) ∅ (fun _ caps => Some caps) = None) ->
  Sre.match_here nd fl r suf ∅ (fun _ caps => Some caps) = Some m ->
  Sre.search nd fl r (pre ++ suf) = Some m.
Proof.
  intros Hbefore Hm. induction pre as [|c pre IH].
  - destruct suf; simpl; by rewrite Hm.
  - pose proof (Hbefore [] (c :: pre) eq_refl ltac:(done)) as H0.
    cbn [app] in *. cbn [Sre.search]. rewrite H0.
    apply IH. intros pre1 suf1 -> Hne.
    by apply (Hbefore (c :: pre1) suf1).
Qed.

(** No match starts at a position when the text from there on begins
    with no text the pattern matches. *)
Lemma match_here_nowhere r s :
  (forall s1 s2 caps, s = s1 ++ s2 -> ~ matches nd fl r s1 ∅ caps) ->
  Sre.match_here nd fl r s ∅ (fun _ caps => Some caps) = None.
Proof.
  intros H. apply match_here_None. intros s1 s2 caps Hs Hm.
  by destruct (H s1 s2 caps Hs).
Qed.
End MoreEngineFacts.

(** ** More of the response parser *)

Lemma lstrip_split s :
  exists blank,
    s = blank ++ lstrip s
    /\ Forall (fun c => is_space c = true) blank
    /\ match lstrip s with
       | [] => True
       | c :: _ => is_space c = false
       end.
Proof.
  induction s as [|c s (blank & Hs & Hb & Hl)].
  - by exists [].
  - cbn [lstrip]. destruct (is_space c) eqn:Hc.
    + exists (c :: blank).
      split_and!; [by rewrite Hs at 1 | by constructor | done].
    + exists []. by rewrite Hc.
Qed.

Lemma lstrip_idemp s : lstrip (lstrip s) = lstrip s.
Proof.
  destruct (lstrip_split s) as (_ & _ & _ & H).
  destruct (lstrip s) as [|c t]; [done|]. cbn [lstrip]. by rewrite H.
Qed.

Lemma py_strip_lstrip s : py_strip (lstrip s) = py_strip s.
Proof. unfold py_strip. by rewrite lstrip_idemp. Qed.

(** What is left of a text once [rstrip] is done is white space. *)
Lemma rstrip_split s :
  exists blank,
    s = rstrip s ++ blank /\ Forall (fun c => is_space c = true) blank.
Proof.
  unfold rstrip.
  destruct (lstrip_split (reverse s)) as (blank & Hs & Hb & _).
  exists (reverse blank). split.
  - rewrite <- reverse_app, <- Hs. by rewrite reverse_involutive.
  - by apply Forall_reverse.
Qed.

Lemma py_strip_trimmed s :
  match py_strip s with
  | [] => True
  | c :: _ => is_space c = false
  end
  /\ match last (py_strip s) with
     | None => True
     | Some c => is_space c = false
     end.
Proof.
  unfold py_strip. split.
  - destruct (lstrip_split s) as (_ & _ & _ & Hhead).
    destruct (rstrip_split (lstrip s)) as (blank & Hs & _).
    destruct (rstrip (lstrip s)) as [|c t]; [done|].
    rewrite Hs in Hhead. exact Hhead.
  - unfold rstrip. rewrite last_reverse.
    destruct (lstrip_split (reverse (lstrip s))) as (_ & _ & _ & Hhead).
    by destruct (lstrip (reverse (lstrip s))).
Qed.

Lemma lit_match_status_char p x :
  status_char p ->
  Sre.lit_match re_IGNORECASE p x = true ->
  Sre.unicode_tolower x = p \/ (p = 115 /\ x = LONG_S).
Proof.
  intros Hp Hm. unfold Sre.lit_match in Hm.
  cbn [Sre.IGNORECASE re_IGNORECASE] in Hm. cbv zeta in Hm.
  rewrite (unicode_tolower_status_char p Hp) in Hm.
  rewrite (ignorecase_fixes_status_char p Hp) in Hm.
  apply orb_true_iff in Hm as [Hm|Hm].
  - left. by apply N.eqb_eq.
  - right. destruct (N.eqb_spec p 115) as [->|]; [|discriminate].
    split; [done|].
    cbn [existsb] in Hm. rewrite orb_false_r in Hm. apply N.eqb_eq in Hm.
    by apply unicode_tolower_long_s.
Qed.

(** A character that a character of a status word matches is no white
    space. *)
Lemma lit_match_not_space p x :
  status_char p ->
  Sre.lit_match re_IGNORECASE p x = true ->
  is_space x = false.
Proof.
  intros Hp Hm.
  destruct (lit_match_status_char p x Hp Hm) as [Hx|[_ ->]]; [|done].
  unfold Sre.unicode_tolower in Hx.
  destruct (is_ascii_upper x) eqn:Hu; [bool_arith|].
  destruct (N.eqb_spec x CAPITAL_I_DOT) as [->|_]; [done|].
  destruct (N.eqb_spec x KELVIN) as [->|_]; [done|].
  subst x. destruct Hp as [(Hl & _ & _)| ->]; [|done]. bool_arith.
Qed.

(** The first letters of the three status words tell them apart. *)
Lemma lit_match_other_letter p q x :
  status_char p -> status_char q -> p <> 115 -> q <> 115 -> p <> q ->
  Sre.lit_match re_IGNORECASE p x = true ->
  Sre.lit_match re_IGNORECASE q x = false.
Proof.
  intros Hp Hq Hps Hqs Hpq Hm.
  destruct (lit_match_status_char p x Hp Hm) as [Hx|[? _]]; [|done].
  unfold Sre.lit_match. cbn [Sre.IGNORECASE re_IGNORECASE]. cbv zeta.
  rewrite (unicode_tolower_status_char q Hq).
  rewrite (ignorecase_fixes_status_char q Hq).
  destruct (N.eqb_spec q 115); [done|]. cbn [existsb]. rewrite orb_false_r.
  apply N.eqb_neq. by rewrite Hx.
Qed.

Section MoreParserFacts.
Context (nd : char -> bool).

Lemma literal_other_word p q word x value post caps k :
  head word = Some q ->
  status_char p -> status_char q -> p <> 115 -> q <> 115 -> p <> q ->
  Sre.lit_match re_IGNORECASE p x = true ->
  Sre.match_here nd re_IGNORECASE (Sre.literal word)
    ((x :: value) ++ post) caps k = None.
Proof.
  intros Hw Hp Hq Hps Hqs Hpq Hm.
  destruct word as [|q' other]; [done|]. injection Hw as ->.
  cbn [Sre.literal Sre.match_here app Sre.atom_match].
  by rewrite (lit_match_other_letter p q x).
Qed.

(** The match of the status pattern at a status field. *)
Lemma match_here_status keyword blank value post word :
  spells re_IGNORECASE (pystr "Status:") keyword ->
  Forall (fun c => is_space c = true) blank ->
  word ∈ status_values ->
  spells re_IGNORECASE word value ->
  Sre.match_here nd re_IGNORECASE status_pattern
    (keyword ++ blank ++ value ++ post) ∅ (fun _ caps => Some caps)
  = Some (<[1%nat := value]> ∅).
Proof.
  intros Hkey Hblank Hword Hvalue.
  unfold status_pattern. cbn [Sre.match_here].
  rewrite match_here_literal by done.
  assert (Ha : status_char 97) by (left; split_and!; [reflexivity|done|done]).
  assert (Hr : status_char 114) by (left; split_and!; [reflexivity|done|done]).
  assert (Hn : status_char 110) by (left; split_and!; [reflexivity|done|done]).
  assert (Hhead : forall p rest,
            word = p :: rest -> status_char p ->
            exists x value',
              value = x :: value'
              /\ Sre.lit_match re_IGNORECASE p x = true
              /\ is_space x = false).
  { intros p rest -> Hp.
    inversion Hvalue as [|? x ? value' Hx Hrest]; subst.
    exists x, value'. split_and!; [done|done|].
    by apply (lit_match_not_space p). }
  assert (Hcap :
    take (length (value ++ post) - length post) (value ++ post) = value)
    by apply captured_prefix.
  unfold status_values in Hword.
  apply elem_of_cons in Hword as [->|Hword].
  { destruct (Hhead _ _ eq_refl Ha) as (x & value' & -> & Hx & Hsp).
    apply repeat_greedy_longest; [done|done|].
    rewrite match_here_literal by done. by rewrite Hcap. }
  apply elem_of_cons in Hword as [->|Hword].
  { destruct (Hhead _ _ eq_refl Hr) as (x & value' & -> & Hx & Hsp).
    apply repeat_greedy_longest; [done|done|].
    rewrite (literal_other_word 114 97 (pystr "accepted")) by done.
    rewrite match_here_literal by done. by rewrite Hcap. }
  apply elem_of_cons in Hword as [->|Hword].
  { destruct (Hhead _ _ eq_refl Hn) as (x & value' & -> & Hx & Hsp).
    apply repeat_greedy_longest; [done|done|].
    rewrite (literal_other_word 110 97 (pystr "accepted")) by done.
    rewrite (literal_other_word 110 114 (pystr "rejected")) by done.
    rewrite match_here_literal by done. by rewrite Hcap. }
  by apply elem_of_nil in Hword.
Qed.

(** X8. The status is read off the first status field of the text: the
    value that follows the first Status: keyword that one of the three
    words follows, in lower case. It is that word itself unless the value
    is spelled with a long s. *)
Theorem status_of_first_field
    (pre keyword blank value post word : str) :
  spells re_IGNORECASE (pystr "Status:") keyword ->
  Forall (fun c => is_space c = true) blank ->
  word ∈ status_values ->
  spells re_IGNORECASE word value ->
  let text := pre ++ keyword ++ blank ++ value ++ post in
  (forall pre' keyword' blank' value' post' word',
     spells re_IGNORECASE (pystr "Status:") keyword' ->
     Forall (fun c => is_space c = true) blank' ->
     word' ∈ status_values ->
     spells re_IGNORECASE word' value' ->
     text = pre' ++ keyword' ++ blank' ++ value' ++ post' ->
     (length pre <= length pre')%nat) ->
  ev_status (parse_response nd (Some text)) = py_lower value
  /\ ((LONG_S ∉ value) -> ev_status (parse_response nd (Some text)) = word).
Proof.
  intros Hkey Hblank Hword Hvalue text Hfirst. subst text.
  assert (Hst : ev_status
                  (parse_response nd
                     (Some (pre ++ keyword ++ blank ++ value ++ post)))
                = py_lower value).
  { rewrite parse_response_text. cbn [ev_status].
    rewrite (search_leftmost nd re_IGNORECASE status_pattern pre _
               (<[1%nat := value]> ∅)).
    - by rewrite lookup_insert_eq.
    - intros pre1 suf1 -> Hne1. apply match_here_nowhere.
      intros s1 s2 caps Hs Hm.
      apply matches_status_pattern in Hm
        as (keyword' & blank' & value' & word'
            & -> & Hk' & Hb' & Hw' & Hv' & _).
      specialize (Hfirst pre1 keyword' blank' value' s2 word' Hk' Hb' Hw' Hv').
      rewrite length_app in Hfirst.
      destruct suf1 as [|x suf1]; [done|]. cbn [length] in Hfirst.
      enough (length pre1 + S (length suf1) <= length pre1)%nat by lia.
      apply Hfirst. rewrite <- (app_assoc pre1), Hs.
      by rewrite <- !app_assoc.
    - by apply (match_here_status keyword blank value post word). }
  split; [exact Hst|].
  intros Hlong. rewrite Hst. apply spells_py_lower; [|done|done].
  by apply status_values_chars.
Qed.


(** The match of the reasoning pattern at a marker: all the white space
    after the marker is skipped and the group is the rest of the text. *)
Lemma match_here_reasoning post :
  Sre.match_here nd re_DOTALL reasoning_pattern (pystr "Reasoning:" ++ post) ∅
    (fun _ caps => Some caps)
  = Some (<[1%nat := lstrip post]> ∅).
Proof.
  unfold reasoning_pattern. cbn [Sre.match_here].
  rewrite match_here_literal by (by apply spells_exact_DOTALL).
  destruct (lstrip_split post) as (blank & Hpost & Hblank & Hstop).
  rewrite Hpost at 1.
  apply repeat_greedy_longest; [done | done |].
  cbn [Sre.match_here]. apply repeat_greedy_all.
  - by apply Forall_forall.
  - cbn [length]. by rewrite Nat.sub_0_r, firstn_all.
Qed.

(** X5. The reasoning is what follows the first Reasoning: marker of the
    text, to the end of the text and across lines, without the white space
    around it: a later marker, and any status or criteria line after the
    first marker, are part of the reasoning. *)
Theorem reasoning_after_first_marker (pre post : str) :
  (forall pre' post',
     pre ++ pystr "Reasoning:" ++ post = pre' ++ pystr "Reasoning:" ++ post' ->
     (length pre <= length pre')%nat) ->
  ev_reasoning
    (parse_response nd (Some (pre ++ pystr "Reasoning:" ++ post)))
  = py_strip post.
Proof.
  intros Hfirst. rewrite parse_response_text. cbn [ev_reasoning].
  rewrite (search_leftmost nd re_DOTALL reasoning_pattern pre
             (pystr "Reasoning:" ++ post) (<[1%nat := lstrip post]> ∅)).
  - rewrite lookup_insert_eq.
    change (default [] (Some (lstrip post))) with (lstrip post).
    apply py_strip_lstrip.
  - intros pre1 suf1 -> Hne. apply match_here_nowhere.
    intros s1 s2 caps Hs Hm.
    apply matches_reasoning_pattern in Hm as (blank & rest & -> & _ & _).
    specialize (Hfirst pre1 (blank ++ rest ++ s2)).
    rewrite length_app in Hfirst.
    destruct suf1 as [|x suf1]; [done|]. cbn [length] in Hfirst.
    enough (length pre1 + S (length suf1) <= length pre1)%nat by lia.
    apply Hfirst. rewrite <- (app_assoc pre1), Hs.
    by rewrite <- !app_assoc.
  - apply match_here_reasoning.
Qed.

(** X6. Whatever the response is, the reasoning of the evaluation
    neither begins nor ends with white space. *)
Theorem parse_response_reasoning_trimmed (response_text : option str) :
  let reasoning := ev_reasoning (parse_response nd response_text) in
  forall c,
    head reasoning = Some c \/ last reasoning = Some c -> is_space c = false.
Proof.
  intros reasoning c. subst reasoning.
  destruct response_text as [text|].
  - rewrite parse_response_text. cbn [ev_reasoning].
    destruct (Sre.search nd re_DOTALL reasoning_pattern text) as [m|].
    + destruct (py_strip_trimmed (default [] (m !! 1%nat))) as [Hh Hl].
      intros [H|H].
      * destruct (py_strip _) as [|x t]; [done|]. by injection H as <-.
      * by rewrite H in Hl.
    + by intros [H|H].
  - intros [H|H]; vm_compute in H; by injection H as <-.
Qed.

Lemma match_here_criteria blank kind digits post :
  Forall (fun c => is_space c = true) blank ->
  kind = 73 \/ kind = 88 ->
  digits <> [] ->
  Forall (fun c => Sre.is_decimal nd c = true) digits ->
  match post with
  | [] => True
  | c :: _ => Sre.is_decimal nd c = false
  end ->
  Sre.match_here nd no_flags criteria_pattern
    (pystr "Criteria:" ++ blank ++ (67 :: kind :: digits) ++ post) ∅
    (fun _ caps => Some caps)
  = Some (<[1%nat := 67 :: kind :: digits]> (<[2%nat := [67; kind]]> ∅)).
Proof.
  intros Hblank Hkind Hne Hdigits Hstop.
  unfold criteria_pattern. cbn [Sre.match_here].
  rewrite match_here_literal by (by apply spells_exact).
  apply repeat_greedy_longest; [done | reflexivity |].
  destruct digits as [|d digits]; [done|].
  apply Forall_cons in Hdigits as [Hd Hdigits].
  assert (Hrest : forall (k : char) (caps : gmap nat str),
    match d :: digits ++ post with
    | [] => None
    | c :: s'0 =>
        if Sre.atom_match nd no_flags Sre.CategoryDigit c
        then
          Sre.repeat_greedy nd no_flags Sre.CategoryDigit s'0
            (fun s'' : str =>
               Some
                 (<[1%nat:=take
                             (length ((67 :: k :: d :: digits) ++ post)
                              - length s'')
                             ((67 :: k :: d :: digits) ++ post)]>
                    (<[2%nat:=take
                                (length ((67 :: k :: d :: digits) ++ post)
                                 - length (d :: digits ++ post))
                                ((67 :: k :: d :: digits) ++ post)]>
                       caps)))
        else None
    end
    = Some (<[1%nat := 67 :: k :: d :: digits]>
              (<[2%nat := [67; k]]> caps))).
  { intros k caps. cbn [Sre.atom_match]. rewrite Hd.
    apply repeat_greedy_longest; [done | done |].
    rewrite captured_prefix.
    change ((67 :: k :: d :: digits) ++ post)
      with ([67; k] ++ d :: digits ++ post).
    by rewrite captured_prefix. }
  destruct Hkind as [-> | ->].
  - change ((67 :: 73 :: d :: digits) ++ post)
      with (pystr "CI" ++ d :: digits ++ post) at 1.
    rewrite match_here_literal by (by apply spells_exact).
    by rewrite Hrest.
  - rewrite match_here_literal_mismatch.
    2:{ intros s1 s2 Hs Hsp. apply spells_exact in Hsp as ->. discriminate. }
    change ((67 :: 88 :: d :: digits) ++ post)
      with (pystr "CX" ++ d :: digits ++ post) at 1.
    rewrite match_here_literal by (by apply spells_exact).
    by rewrite Hrest.
Qed.

(** X7. The criteria is the first criteria code of the text, with all
    of its digits: where a code has several digits none is left out, and a
    Criteria: keyword that no code follows is passed over. *)
Theorem criteria_is_first_code (pre blank digits post : str) (kind : char) :
  Forall (fun c => is_space c = true) blank ->
  kind = 73 \/ kind = 88 ->
  digits <> [] ->
  Forall (fun c => Sre.is_decimal nd c = true) digits ->
  match post with
  | [] => True
  | c :: _ => Sre.is_decimal nd c = false
  end ->
  let text :=
    pre ++ pystr "Criteria:" ++ blank ++ (67 :: kind :: digits) ++ post in
  (forall pre' blank' kind' digits' post',
     Forall (fun c => is_space c = true) blank' ->
     kind' = 73 \/ kind' = 88 ->
     digits' <> [] ->
     Forall (fun c => Sre.is_decimal nd c = true) digits' ->
     text
     = pre' ++ pystr "Criteria:" ++ blank' ++ (67 :: kind' :: digits')
       ++ post' ->
     (length pre <= length pre')%nat) ->
  ev_criteria (parse_response nd (Some text)) = 67 :: kind :: digits.
Proof.
  intros Hblank Hkind Hne Hdigits Hstop text Hfirst. subst text.
  rewrite parse_response_text. cbn [ev_criteria].
  rewrite (search_leftmost nd no_flags criteria_pattern pre _
             (<[1%nat := 67 :: kind :: digits]> (<[2%nat := [67; kind]]> ∅))).
  - by rewrite lookup_insert_eq.
  - intros pre1 suf1 -> Hne1. apply match_here_nowhere.
    intros s1 s2 caps Hs Hm.
    apply matches_criteria_pattern in Hm
      as (blank' & kind' & digits' & -> & Hb' & Hk' & Hn' & Hd' & _).
    specialize (Hfirst pre1 blank' kind' digits' s2 Hb' Hk' Hn' Hd').
    rewrite length_app in Hfirst.
    destruct suf1 as [|x suf1]; [done|]. cbn [length] in Hfirst.
    enough (length pre1 + S (length suf1) <= length pre1)%nat by lia.
    apply Hfirst. rewrite <- (app_assoc pre1), Hs.
    by rewrite <- !app_assoc.
  - by apply match_here_criteria.
Qed.
End MoreParserFacts.

(** A status line, then two reasoning markers: the reasoning starts
    after the first. *)
Lemma reasoning_after_first_marker_witness :
  let pre := pystr "Status: accepted" ++ [LF] in
  let post :=
    pystr "  on topic." ++ [LF] ++ pystr "Reasoning: with data " ++ [LF] in
  (forall pre' post',
     pre ++ pystr "Reasoning:" ++ post = pre' ++ pystr "Reasoning:" ++ post' ->
     (length pre <= length pre')%nat)
  /\ ev_reasoning
       (parse_response no_other_digits
          (Some (pre ++ pystr "Reasoning:" ++ post)))
     = py_strip post.
Proof.
  intros pre post.
  assert (H : forall pre' post',
            pre ++ pystr "Reasoning:" ++ post
            = pre' ++ pystr "Reasoning:" ++ post' ->
            (length pre <= length pre')%nat).
  { intros pre' post' H. vm_compute in H.
    do 17 (destruct pre' as [|? pre']; [discriminate|injection H as _ H]).
    cbn. lia. }
  split; [exact H|].
  exact (reasoning_after_first_marker no_other_digits pre post H).
Defined.

(** A code of two digits after a remark. *)
Lemma criteria_is_first_code_witness :
  let pre := pystr "Note. " in
  let text := pre ++ pystr "Criteria:" ++ [32] ++ (67 :: 73 :: pystr "12")
              ++ pystr ", CX3" in
  (Forall (fun c => is_space c = true) [32]
   /\ (73 = 73 \/ 73 = 88)
   /\ pystr "12" <> []
   /\ Forall (fun c => Sre.is_decimal no_other_digits c = true) (pystr "12")
   /\ Sre.is_decimal no_other_digits 44 = false
   /\ (forall pre' blank' kind' digits' post',
         Forall (fun c => is_space c = true) blank' ->
         kind' = 73 \/ kind' = 88 ->
         digits' <> [] ->
         Forall (fun c => Sre.is_decimal no_other_digits c = true) digits' ->
         text
         = pre' ++ pystr "Criteria:" ++ blank' ++ (67 :: kind' :: digits')
           ++ post' ->
         (length pre <= length pre')%nat))
  /\ ev_criteria (parse_response no_other_digits (Some text)) = pystr "CI12".
Proof.
  intros pre text.
  assert (H1 : Forall (fun c => is_space c = true) [32])
    by (by repeat constructor).
  assert (H2 : Forall (fun c => Sre.is_decimal no_other_digits c = true)
                 (pystr "12")) by (by repeat constructor).
  assert (H3 : forall pre' blank' kind' digits' post',
            Forall (fun c => is_space c = true) blank' ->
            kind' = 73 \/ kind' = 88 ->
            digits' <> [] ->
            Forall (fun c => Sre.is_decimal no_other_digits c = true) digits' ->
            text
            = pre' ++ pystr "Criteria:" ++ blank' ++ (67 :: kind' :: digits')
              ++ post' ->
            (length pre <= length pre')%nat).
  { intros pre' blank' kind' digits' post' _ _ _ _ H. vm_compute in H.
    do 6 (destruct pre' as [|? pre']; [discriminate|injection H as _ H]).
    cbn. lia. }
  split; [split_and!; [exact H1|by left|done|exact H2|reflexivity|exact H3]|].
  exact (criteria_is_first_code no_other_digits pre [32] (pystr "12")
           (pystr ", CX3") 73 H1 (or_introl eq_refl) ltac:(done) H2 eq_refl H3).
Defined.

(** A status in capitals at the head of the text, and a second one
    after it. *)
Lemma status_of_first_field_witness :
  let text :=
    [] ++ pystr "STATUS:" ++ [32] ++ pystr "Rejected"
    ++ pystr ". Status: accepted" in
  (spells re_IGNORECASE (pystr "Status:") (pystr "STATUS:")
   /\ Forall (fun c => is_space c = true) [32]
   /\ pystr "rejected" ∈ status_values
   /\ spells re_IGNORECASE (pystr "rejected") (pystr "Rejected")
   /\ (forall pre' keyword' blank' value' post' word',
         spells re_IGNORECASE (pystr "Status:") keyword' ->
         Forall (fun c => is_space c = true) blank' ->
         word' ∈ status_values ->
         spells re_IGNORECASE word' value' ->
         text = pre' ++ keyword' ++ blank' ++ value' ++ post' ->
         (length (@nil N) <= length pre')%nat)
   /\ (LONG_S ∉ pystr "Rejected"))
  /\ ev_status (parse_response no_other_digits (Some text)) = pystr "rejected".
Proof.
  intros text.
  assert (H1 : spells re_IGNORECASE (pystr "Status:") (pystr "STATUS:"))
    by (by repeat constructor).
  assert (H2 : Forall (fun c => is_space c = true) [32])
    by (by repeat constructor).
  assert (H3 : pystr "rejected" ∈ status_values).
  { unfold status_values. apply elem_of_cons. right.
    apply elem_of_cons. by left. }
  assert (H4 : spells re_IGNORECASE (pystr "rejected") (pystr "Rejected"))
    by (by repeat constructor).
  assert (H5 : forall pre' keyword' blank' value' post' word',
            spells re_IGNORECASE (pystr "Status:") keyword' ->
            Forall (fun c => is_space c = true) blank' ->
            word' ∈ status_values ->
            spells re_IGNORECASE word' value' ->
            text = pre' ++ keyword' ++ blank' ++ value' ++ post' ->
            (length (@nil N) <= length pre')%nat)
    by (intros; cbn; lia).
  assert (H6 : LONG_S ∉ pystr "Rejected").
  { intros Hin. vm_compute in Hin.
    repeat (apply elem_of_cons in Hin as [Hin|Hin]; [discriminate|]).
    by apply elem_of_nil in Hin. }
  split; [by split_and!|].
  exact (proj2 (status_of_first_field no_other_digits [] (pystr "STATUS:")
                  [32] (pystr "Rejected") (pystr ". Status: accepted")
                  (pystr "rejected") H1 H2 H3 H4 H5) H6).
Defined.

(** A reasoning between white space. *)
Lemma parse_response_reasoning_trimmed_witness :
  let reasoning :=
    ev_reasoning
      (parse_response no_other_digits
         (Some (pystr "Reasoning:   fits well  " ++ [LF]))) in
  (head reasoning = Some 102 \/ last reasoning = Some 102)
  /\ is_space 102 = false.
Proof.
  intros reasoning.
  assert (H : head reasoning = Some 102 \/ last reasoning = Some 102)
    by (left; vm_compute; reflexivity).
  split; [exact H|].
  exact (parse_response_reasoning_trimmed no_other_digits
           (Some (pystr "Reasoning:   fits well  " ++ [LF])) 102 H).
Defined.

(** ** More of the statistics reporter *)

Lemma str_compare_refl a : str_compare a a = Eq.
Proof.
  induction a as [|x a IH]; [done|]. cbn. by rewrite N.compare_refl.
Qed.

Lemma str_compare_eq a b : str_compare a b = Eq <-> a = b.
Proof.
  split; [|intros ->; apply str_compare_refl].
  revert b. induction a as [|x a IH]; intros [|y b]; try done.
  cbn. destruct (N.compare_spec x y) as [->| |]; try done.
  intros H. by rewrite (IH b H).
Qed.

Lemma str_compare_antisym a b : str_compare b a = CompOpp (str_compare a b).
Proof.
  revert b. induction a as [|x a IH]; intros [|y b]; try done.
  cbn. rewrite (N.compare_antisym x y).
  destruct (N.compare x y); cbn; [apply IH|done|done].
Qed.

Lemma str_compare_trans a b c :
  str_compare a b = Lt -> str_compare b c = Lt -> str_compare a c = Lt.
Proof.
  revert b c. induction a as [|x a IH]; intros [|y b] [|z c]; try done.
  cbn.
  destruct (N.compare_spec x y) as [->|Hxy|Hxy]; try done.
  - destruct (N.compare_spec y z) as [->|Hyz|Hyz]; try done. apply IH.
  - intros _.
    destruct (N.compare_spec y z) as [->|Hyz|Hyz]; try done.
    + intros _. destruct (N.compare_spec x z); [lia|done|lia].
    + intros _. destruct (N.compare_spec x z); [lia|done|lia].
Qed.

Global Instance item_le_total : Total item_le.
Proof.
  intros [a n] [b k]. unfold item_le. cbn [fst snd].
  rewrite (str_compare_antisym a b).
  destruct (str_compare a b); cbn; [lia|by left|by right].
Qed.

Global Instance item_le_trans : Transitive item_le.
Proof.
  intros [a n] [b k] [c l]. unfold item_le. cbn [fst snd].
  destruct (str_compare a b) eqn:Hab; [|intros _|done].
  - apply str_compare_eq in Hab as ->.
    destruct (str_compare b c); [lia|done|done].
  - destruct (str_compare b c) eqn:Hbc; [|intros _|done].
    + apply str_compare_eq in Hbc as ->. by rewrite Hab.
    + by rewrite (str_compare_trans a b c).
Qed.

(** A list in the order of [sorted] whose codes are all different has
    them going up. *)
Lemma sorted_distinct_codes (lines : list (str * nat)) :
  StronglySorted item_le lines ->
  NoDup lines.*1 ->
  StronglySorted code_lt lines.
Proof.
  induction 1 as [|x lines Hsorted IH Hall]; intros Hnd; [constructor|].
  rewrite fmap_cons in Hnd. apply NoDup_cons in Hnd as [Hx Hnd].
  constructor; [by apply IH|].
  apply Forall_forall. intros y Hy.
  pose proof (proj1 (Forall_forall _ _) Hall y Hy) as Hle.
  unfold item_le in Hle. unfold code_lt.
  destruct (str_compare x.1 y.1) eqn:Hc; [|done|done].
  apply str_compare_eq in Hc. exfalso. apply Hx. rewrite Hc.
  apply list_elem_of_fmap. by exists y.
Qed.

Lemma for_each_all {A} (body : A -> result LogRecord) (line : A -> LogRecord)
    xs :
  (forall x, body x = Ok (line x)) ->
  for_each body xs = (line <$> xs, Ok tt).
Proof.
  intros Hbody. induction xs as [|x xs IH]; [done|].
  cbn [for_each]. by rewrite Hbody, IH.
Qed.

Lemma count_status_cons s v results :
  count_status s (v :: results)
  = ((if decide (status v = s) then 1 else 0) + count_status s results)%nat.
Proof.
  unfold count_status. rewrite filter_cons. by destruct (decide _).
Qed.

Lemma count_criteria_cons c v results :
  count_criteria c (v :: results)
  = ((if decide (criteria v = c) then 1 else 0) + count_criteria c results)%nat.
Proof.
  unfold count_criteria. rewrite filter_cons. by destruct (decide _).
Qed.

(** The two dictionaries after the counting loop. *)
Lemma foldl_count_item_counts results : forall counts criteria_counts,
  (forall k, k ∈ status_values -> is_Some (counts !! k)) ->
  Forall (fun v => status v ∈ status_values) results ->
  exists counts' criteria_counts',
    foldl count_item (Ok (counts, criteria_counts)) results
    = Ok (counts', criteria_counts')
    /\ (forall k,
          counts' !! k
          = (fun n => (n + count_status k results)%nat) <$> counts !! k)
    /\ (forall c,
          criteria_counts' !! c
          = match count_criteria c results with
            | O => criteria_counts !! c
            | S _ =>
                Some (default O (criteria_counts !! c)
                      + count_criteria c results)%nat
            end).
Proof.
  induction results as [|v results IH]; intros counts cc Hdom Hall.
  - exists counts, cc. split_and!; [done| |done].
    intros k. cbn. destruct (counts !! k); cbn; [f_equal; lia|done].
  - apply Forall_cons in Hall as [Hv Hall]. cbn [foldl].
    destruct (Hdom _ Hv) as [n Hn].
    unfold count_item at 2, getitem. cbn [bind]. rewrite Hn. cbn [bind].
    destruct (IH (<[status v := S n]> counts)
                (<[criteria v := S (default O (cc !! criteria v))]> cc))
      as (counts' & cc' & Hfold & Hcounts & Hcc); [|done|].
    { intros k Hk. destruct (decide (status v = k)) as [->|Hne].
      - rewrite lookup_insert_eq. eauto.
      - rewrite lookup_insert_ne by done. by apply Hdom. }
    exists counts', cc'. split_and!; [done| |].
    + intros k. rewrite Hcounts, count_status_cons.
      destruct (decide (status v = k)) as [<-|Hne].
      * rewrite lookup_insert_eq, Hn. cbn. f_equal. lia.
      * by rewrite lookup_insert_ne.
    + intros c. rewrite Hcc, count_criteria_cons.
      destruct (decide (criteria v = c)) as [<-|Hne].
      * rewrite lookup_insert_eq. cbn [default].
        destruct (count_criteria (criteria v) results); cbn; f_equal; lia.
      * by rewrite lookup_insert_ne.
Qed.

Lemma initial_counts_lookup k :
  initial_counts !! k
  = if bool_decide (k ∈ status_values) then Some O else None.
Proof.
  unfold initial_counts, status_values.
  destruct (decide (k = pystr "accepted")) as [->|H1]; [done|].
  destruct (decide (k = pystr "rejected")) as [->|H2]; [done|].
  destruct (decide (k = pystr "not-sure")) as [->|H3]; [done|].
  rewrite !lookup_insert_ne by done. rewrite lookup_empty.
  rewrite bool_decide_eq_false_2; [done|].
  intros Hin. repeat (apply elem_of_cons in Hin as [Hin|Hin]; [done|]).
  by apply elem_of_nil in Hin.
Qed.

Lemma foldl_count_item_raise results e :
  foldl count_item (Raise e) results = Raise e.
Proof. induction results; [done|]. by cbn. Qed.

(** The three statuses are the only ones: their counts add up. *)
Lemma count_status_total results :
  Forall (fun v => status v ∈ status_values) results ->
  (count_status (pystr "accepted") results
   + count_status (pystr "rejected") results
   + count_status (pystr "not-sure") results)%nat
  = length results.
Proof.
  induction 1 as [|v results Hv _ IH]; [done|].
  rewrite !count_status_cons. cbn [length]. rewrite <- IH.
  unfold status_values in Hv.
  repeat (apply elem_of_cons in Hv as [->|Hv];
          [repeat (destruct (decide _) as [?|?]; try done); lia|]).
  by apply elem_of_nil in Hv.
Qed.

(** The shape of a report that succeeds. *)
Lemma calculate_statistics_report_shape (results : list Verdict) :
  results <> [] ->
  Forall (fun v => status v ∈ status_values) results ->
  exists lines : list (str * nat),
    calculate_statistics results
    = (LogInfo (LF :: pystr "Final Results:")
       :: LogShare (pystr "Accepted")
            (count_status (pystr "accepted") results) (length results)
       :: LogShare (pystr "Rejected")
            (count_status (pystr "rejected") results) (length results)
       :: LogShare (pystr "Not-sure")
            (count_status (pystr "not-sure") results) (length results)
       :: LogInfo (LF :: pystr "Criteria Breakdown:")
       :: (share_line (length results) <$> lines),
       Ok tt)
    /\ (forall c n,
         (c, n) ∈ lines <-> n = count_criteria c results /\ (0 < n)%nat)
    /\ StronglySorted code_lt lines.
Proof.
  intros Hne Hall.
  destruct (foldl_count_item_counts results initial_counts ∅)
    as (counts & cc & Hfold & Hcounts & Hcc); [|done|].
  { intros k Hk. rewrite initial_counts_lookup.
    rewrite bool_decide_eq_true_2 by done. eauto. }
  assert (Hget : forall k, k ∈ status_values ->
            getitem counts k = Ok (count_status k results)).
  { intros k Hk. unfold getitem. rewrite Hcounts, initial_counts_lookup.
    by rewrite bool_decide_eq_true_2. }
  exists (merge_sort item_le (map_to_list cc)). split_and!.
  - unfold calculate_statistics. rewrite Hfold.
    assert (Htotal : exists n, length results = S n).
    { destruct results; [done|]. cbn. eauto. }
    destruct Htotal as [n Htotal]. rewrite Htotal.
    cbn [for_each].
    rewrite !Hget by
      (unfold status_values;
       repeat (apply elem_of_cons; first [by left|right])).
    cbn [bind true_div].
    match goal with
    | |- context [for_each ?body ?xs] =>
        rewrite (for_each_all body (share_line (S n)) xs)
          by (by intros [c k])
    end.
    reflexivity.
  - intros c n.
    rewrite merge_sort_Permutation, elem_of_map_to_list, Hcc, lookup_empty.
    destruct (count_criteria c results) as [|k]; cbn.
    + split; [done|]. intros [-> H]. lia.
    + split; [intros [= <-]; split; [done|lia] | by intros [-> _]].
  - apply sorted_distinct_codes.
    + apply StronglySorted_merge_sort; apply _.
    + rewrite merge_sort_Permutation. apply NoDup_fst_map_to_list.
Qed.

(** X9. The report over verdicts whose statuses are among the three
    values, and at least one of them: the heading, the three statuses in
    the order accepted, rejected, not-sure, each with the number of
    verdicts that have it over the total, then the second heading and one
    line per criteria that occurs, with the number of verdicts that have
    it, in ascending order of the criteria. The three status counts add up
    to the total. *)
Theorem calculate_statistics_report (results : list Verdict) :
  results <> [] ->
  Forall (fun v => status v ∈ status_values) results ->
  let total := length results in
  exists lines : list (str * nat),
    calculate_statistics results
    = (LogInfo (LF :: pystr "Final Results:")
       :: LogShare (pystr "Accepted")
            (count_status (pystr "accepted") results) total
       :: LogShare (pystr "Rejected")
            (count_status (pystr "rejected") results) total
       :: LogShare (pystr "Not-sure")
            (count_status (pystr "not-sure") results) total
       :: LogInfo (LF :: pystr "Criteria Breakdown:")
       :: (share_line total <$> lines),
       Ok tt)
    /\ (forall c n,
         (c, n) ∈ lines <-> n = count_criteria c results /\ (0 < n)%nat)
    /\ StronglySorted code_lt lines
    /\ (count_status (pystr "accepted") results
        + count_status (pystr "rejected") results
        + count_status (pystr "not-sure") results)%nat
       = total.
Proof.
  intros Hne Hall total. subst total.
  destruct (calculate_statistics_report_shape results Hne Hall)
    as (lines & Hrep & Hlines & Hsorted).
  exists lines. split_and!; [done|done|done|].
  by apply count_status_total.
Qed.

(** X10. A verdict whose status is none of the three values makes the
    reporter raise [KeyError] with that status, at the first such verdict
    and before anything is logged, whatever the other verdicts are. *)
Theorem calculate_statistics_foreign_status
    (before after : list Verdict) (v : Verdict) :
  Forall (fun v => status v ∈ status_values) before ->
  (status v ∉ status_values) ->
  calculate_statistics (before ++ v :: after)
  = ([], Raise (KeyError (status v))).
Proof.
  intros Hall Hv. unfold calculate_statistics.
  destruct (foldl_count_item_counts before initial_counts ∅)
    as (counts & cc & Hfold & Hcounts & _); [|done|].
  { intros k Hk. rewrite initial_counts_lookup.
    rewrite bool_decide_eq_true_2 by done. eauto. }
  rewrite foldl_app, Hfold. cbn [foldl].
  unfold count_item at 2, getitem. cbn [bind].
  rewrite Hcounts, initial_counts_lookup.
  rewrite bool_decide_eq_false_2 by done.
  cbn [fmap option_fmap option_map bind].
  by rewrite foldl_count_item_raise.
Qed.

Lemma report_verdicts_statuses :
  Forall (fun v => status v ∈ status_values) report_verdicts.
Proof.
  unfold report_verdicts, status_values.
  repeat (apply Forall_cons; split;
          [cbn [status]; repeat (apply elem_of_cons; first [by left|right])|]).
  apply Forall_nil. done.
Qed.

Lemma calculate_statistics_report_witness :
  let results := report_verdicts in
  let total := 4%nat in
  (results <> [] /\ Forall (fun v => status v ∈ status_values) results)
  /\ exists lines : list (str * nat),
      calculate_statistics results
      = (LogInfo (LF :: pystr "Final Results:")
         :: LogShare (pystr "Accepted")
              (count_status (pystr "accepted") results) total
         :: LogShare (pystr "Rejected")
              (count_status (pystr "rejected") results) total
         :: LogShare (pystr "Not-sure")
              (count_status (pystr "not-sure") results) total
         :: LogInfo (LF :: pystr "Criteria Breakdown:")
         :: (share_line total <$> lines),
         Ok tt)
      /\ (forall c n,
           (c, n) ∈ lines <-> n = count_criteria c results /\ (0 < n)%nat)
      /\ StronglySorted code_lt lines
      /\ (count_status (pystr "accepted") results
          + count_status (pystr "rejected") results
          + count_status (pystr "not-sure") results)%nat
         = total.
Proof.
  intros results total.
  assert (H1 : results <> []) by done.
  split; [split; [exact H1 | exact report_verdicts_statuses]|].
  exact (calculate_statistics_report results H1 report_verdicts_statuses).
Defined.

(** The report of the four verdicts, line by line. *)
Example calculate_statistics_example :
  calculate_statistics report_verdicts
  = ([LogInfo (LF :: pystr "Final Results:");
      LogShare (pystr "Accepted") 2 4;
      LogShare (pystr "Rejected") 1 4;
      LogShare (pystr "Not-sure") 1 4;
      LogInfo (LF :: pystr "Criteria Breakdown:");
      LogShare (pystr "CI1") 2 4;
      LogShare (pystr "CX2") 1 4;
      LogShare (pystr "not-specified") 1 4],
     Ok tt).
Proof. vm_compute. reflexivity. Qed.

(** A status in mixed case, as a table edited by hand may have it, after
    two verdicts of the pipeline. *)
Lemma calculate_statistics_foreign_status_witness :
  let before := take 2 report_verdicts in
  let v :=
    mkVerdict (pystr "C") (pystr "A title") (pystr "Accepted") (pystr "CI3")
      (pystr "fits well") in
  (Forall (fun v => status v ∈ status_values) before
   /\ (status v ∉ status_values))
  /\ calculate_statistics (before ++ v :: drop 2 report_verdicts)
     = ([], Raise (KeyError (pystr "Accepted"))).
Proof.
  intros before v.
  assert (H1 : Forall (fun v => status v ∈ status_values) before).
  { apply Forall_take. exact report_verdicts_statuses. }
  assert (H2 : status v ∉ status_values).
  { intros Hin. vm_compute in Hin.
    repeat (apply elem_of_cons in Hin as [Hin|Hin]; [discriminate|]).
    by apply elem_of_nil in Hin. }
  split; [by split|].
  exact (calculate_statistics_foreign_status before (drop 2 report_verdicts)
           v H1 H2).
Defined.

(** ** More of the pipeline of the classifier *)

Section MoreToolFacts.
Context (nd : char -> bool) {Service : Type}.
Context (chat : Service -> Request -> Service * Outcome).
Context (bibtex_load : str -> result (list (gmap str str))).
Context (MODEL_NAME : str).

(** The pipeline once its two inputs are loaded: the evaluations, then
    the table, then the report. *)
Lemma process_bib_run (w : World) (c : Client Service)
    (input_path output_path criteria_path criteria_text bib_text : str)
    (entries : list (gmap str str)) :
  open_read w criteria_path = Ok criteria_text ->
  open_read w input_path = Ok bib_text ->
  bibtex_load (translate_newlines bib_text) = Ok entries ->
  let evaluated :=
    process_entries nd Service chat entries
      (translate_newlines criteria_text) MODEL_NAME c in
  process_bib nd Service chat bibtex_load MODEL_NAME
    input_path output_path criteria_path (mkMachine Service w c)
  = if bool_decide (output_path ∈ denied w)
    then (mkMachine Service w evaluated.1,
          [LogException (pystr "Error writing CSV file: ") PermissionError;
           LogException (pystr "Processing failed: ") PermissionError],
          Raise PermissionError)
    else
      let report := calculate_statistics evaluated.2 in
      (mkMachine Service
         (mkWorld (<[output_path := results_csv_text evaluated.2]> (files w))
            (denied w))
         evaluated.1,
       LogInfo (pystr "Results successfully written to " ++ output_path)
       :: report.1
       ++ match report.2 with
          | Ok _ => []
          | Raise e => [LogException (pystr "Processing failed: ") e]
          end,
       report.2).
Proof.
  intros Hcrit Hbib Hload evaluated. subst evaluated.
  unfold process_bib, log_and_reraise, and_then, load_criteria,
    load_bib_entries, write_results_to_csv, log_and_reraise, and_then, logging.
  cbn [world client]. rewrite Hcrit. cbv beta iota. cbn [world client].
  rewrite Hbib. cbn [bind]. rewrite Hload. cbv beta iota.
  cbn [world client].
  destruct (process_entries nd Service chat entries _ MODEL_NAME c)
    as [c' results].
  cbv beta iota. cbn [world client fst snd].
  unfold open_write. case_bool_decide.
  - reflexivity.
  - cbv beta iota. cbn [world client].
    destruct (calculate_statistics results) as [log [[]|e]]; cbn [fst snd app].
    + by rewrite app_nil_r.
    + reflexivity.
Qed.

(** X11. When the criteria or the bibliography cannot be loaded, the
    pipeline stops there: no request is sent, no file is written, the
    exception of the loader is the exception of the pipeline, and the log
    is the record of the loader followed by Processing failed. *)
Theorem process_bib_stops_before_evaluating
    (w : World) (c : Client Service)
    (input_path output_path criteria_path : str) (e : PyExc) :
  open_read w criteria_path = Raise e
  \/ (exists criteria_text,
        open_read w criteria_path = Ok criteria_text
        /\ (let* bib_text := open_read w input_path in
            bibtex_load (translate_newlines bib_text)) = Raise e) ->
  let run :=
    process_bib nd Service chat bibtex_load MODEL_NAME
      input_path output_path criteria_path (mkMachine Service w c) in
  run.1.1 = mkMachine Service w c
  /\ run.2 = Raise e
  /\ exists record,
      run.1.2 = [record; LogException (pystr "Processing failed: ") e].
Proof.
  intros Hfail run. subst run.
  unfold process_bib, log_and_reraise, and_then, load_criteria,
    load_bib_entries.
  cbn [world client].
  destruct Hfail as [Hcrit|(criteria_text & Hcrit & Hbib)].
  - rewrite Hcrit. destruct e; cbn; eauto.
  - rewrite Hcrit. cbv beta iota. cbn [world client].
    rewrite Hbib. destruct e; cbn; eauto.
Qed.


(** X13. The output is opened only after every entry has been
    evaluated: when it cannot be written, all the requests have been sent
    all the same, no file is changed, and the pipeline raises
    [PermissionError] without making the report; the last two records of
    the log are the error of the writer and Processing failed. *)
Theorem process_bib_unwritable_output
    (w : World) (c : Client Service)
    (input_path output_path criteria_path criteria_text bib_text : str)
    (entries : list (gmap str str)) :
  open_read w criteria_path = Ok criteria_text ->
  open_read w input_path = Ok bib_text ->
  bibtex_load (translate_newlines bib_text) = Ok entries ->
  output_path ∈ denied w ->
  let run :=
    process_bib nd Service chat bibtex_load MODEL_NAME
      input_path output_path criteria_path (mkMachine Service w c) in
  world Service run.1.1 = w
  /\ sent (client Service run.1.1)
     = sent c ++ (request_of (translate_newlines criteria_text) MODEL_NAME
                    <$> entries)
  /\ (exists earlier,
       run.1.2
       = earlier
         ++ [LogException (pystr "Error writing CSV file: ") PermissionError;
             LogException (pystr "Processing failed: ") PermissionError])
  /\ run.2 = Raise PermissionError.
Proof.
  intros Hcrit Hbib Hload Hout run. subst run.
  rewrite (process_bib_run w c input_path output_path criteria_path
             criteria_text bib_text entries Hcrit Hbib Hload).
  cbn zeta. rewrite bool_decide_eq_true_2 by done. cbn [fst snd world client].
  split_and!; try reflexivity; [apply process_entries_sent | by exists []].
Qed.

End MoreToolFacts.

(** The criteria are there and the bibliography is not. *)
Lemma process_bib_stops_before_evaluating_witness :
  let w := criteria_only_world in
  let c := mkClient O [] in
  let run :=
    process_bib no_other_digits nat example_service example_load
      (pystr "gpt-4o-mini") (pystr "input.bib") (pystr "results.csv")
      (pystr "criteria.md") (mkMachine nat w c) in
  (open_read w (pystr "criteria.md") = Raise FileNotFoundError
   \/ (exists criteria_text,
         open_read w (pystr "criteria.md") = Ok criteria_text
         /\ (let* bib_text := open_read w (pystr "input.bib") in
             example_load (translate_newlines bib_text))
            = Raise FileNotFoundError))
  /\ (run.1.1 = mkMachine nat w c
      /\ run.2 = Raise FileNotFoundError
      /\ exists record,
          run.1.2
          = [record;
             LogException (pystr "Processing failed: ") FileNotFoundError]).
Proof.
  intros w c run.
  assert (H : open_read w (pystr "criteria.md") = Raise FileNotFoundError
              \/ (exists criteria_text,
                    open_read w (pystr "criteria.md") = Ok criteria_text
                    /\ (let* bib_text := open_read w (pystr "input.bib") in
                        example_load (translate_newlines bib_text))
                       = Raise FileNotFoundError)).
  { right. exists (pystr "CI1: on topic"). split; vm_compute; reflexivity. }
  split; [exact H|].
  exact (process_bib_stops_before_evaluating no_other_digits example_service
           example_load (pystr "gpt-4o-mini") w c (pystr "input.bib")
           (pystr "results.csv") (pystr "criteria.md") FileNotFoundError H).
Defined.

Lemma classifier_world_loads :
  open_read classifier_world (pystr "criteria.md") = Ok (pystr "CI1: on topic")
  /\ open_read classifier_world (pystr "input.bib")
     = Ok (pystr "@article{A}@article{B}@article{C}@article{D}")
  /\ open_read locked_world (pystr "criteria.md") = Ok (pystr "CI1: on topic")
  /\ open_read locked_world (pystr "input.bib")
     = Ok (pystr "@article{A}@article{B}@article{C}@article{D}")
  /\ example_load
       (translate_newlines
          (pystr "@article{A}@article{B}@article{C}@article{D}"))
     = Ok example_bibliography.
Proof. split_and!; vm_compute; reflexivity. Qed.


(** The same run where the table cannot be written. *)
Lemma process_bib_unwritable_output_witness :
  let w := locked_world in
  let c := mkClient O [] in
  let run :=
    process_bib no_other_digits nat example_service example_load
      (pystr "gpt-4o-mini") (pystr "input.bib") (pystr "results.csv")
      (pystr "criteria.md") (mkMachine nat w c) in
  (open_read w (pystr "criteria.md") = Ok (pystr "CI1: on topic")
   /\ open_read w (pystr "input.bib")
      = Ok (pystr "@article{A}@article{B}@article{C}@article{D}")
   /\ example_load
        (translate_newlines
           (pystr "@article{A}@article{B}@article{C}@article{D}"))
      = Ok example_bibliography
   /\ pystr "results.csv" ∈ denied w)
  /\ (world nat run.1.1 = w
      /\ sent (client nat run.1.1)
         = sent c
           ++ (request_of (translate_newlines (pystr "CI1: on topic"))
                 (pystr "gpt-4o-mini") <$> example_bibliography)
      /\ (exists earlier,
           run.1.2
           = earlier
             ++ [LogException (pystr "Error writing CSV file: ")
                   PermissionError;
                 LogException (pystr "Processing failed: ") PermissionError])
      /\ run.2 = Raise PermissionError).
Proof.
  intros w c run.
  destruct classifier_world_loads as (_ & _ & H1 & H2 & H3).
  assert (H4 : pystr "results.csv" ∈ denied w).
  { cbn [w locked_world denied]. by apply elem_of_singleton. }
  split; [by split_and!|].
  exact (process_bib_unwritable_output no_other_digits example_service
           example_load (pystr "gpt-4o-mini") w c
           (pystr "input.bib") (pystr "results.csv") (pystr "criteria.md")
           _ _ example_bibliography H1 H2 H3 H4).
Defined.


(** ** The results table as the filter reads it *)
















(** ** The reader on any text *)











(** ** More of the bibliography filter *)

(** X17. The filter changes nothing unless it succeeds. When the table
    or the bibliography cannot be read or parsed, when a row is malformed,
    or when the output cannot be opened, the files are as they were and the
    last record of the log is Processing failed with the exception, which
    is raised again. When the filter succeeds, the output file is the only
    file that has changed. (Writing the entries out is taken not to
    fail.) *)
Theorem create_accepted_bib_all_or_nothing
    (bibtex_load : str -> result (list (gmap str str)))
    (bibtex_dump : list (gmap str str) -> str)
    (w : World) (original_bib results_csv output_file : str) :
  let run :=
    create_accepted_bib bibtex_load bibtex_dump original_bib results_csv
      output_file w in
  match run.2 with
  | Raise e =>
      run.1.1 = w
      /\ last run.1.2 = Some (LogException (pystr "Processing failed: ") e)
  | Ok _ =>
      denied run.1.1 = denied w
      /\ is_Some (files run.1.1 !! output_file)
      /\ forall path,
          path <> output_file -> files run.1.1 !! path = files w !! path
  end.
Proof.
  intros run. subst run.
  unfold create_accepted_bib, log_and_reraise, and_then, lift.
  destruct (open_read w results_csv) as [csv_content|e]; [|done].
  destruct (load_accepted_keys _) as [keys|e]; [|done].
  destruct (open_read w original_bib) as [bib_content|e]; [|done].
  destruct (bibtex_load _) as [entries|e]; [|done].
  unfold open_write. case_bool_decide; [done|].
  cbn [fst snd files denied]. split_and!.
  - reflexivity.
  - rewrite lookup_insert_eq. eauto.
  - intros path Hpath. by rewrite lookup_insert_ne.
Qed.

(** The run of the examples succeeds and leaves the bibliography as it
    was. *)
Lemma create_accepted_bib_all_or_nothing_witness :
  let run :=
    create_accepted_bib example_load example_dump (pystr "input.bib")
      (pystr "results.csv") (pystr "accepted.bib") example_world in
  pystr "input.bib" <> pystr "accepted.bib"
  /\ run.2 = Ok tt
  /\ files run.1.1 !! pystr "input.bib"
     = files example_world !! pystr "input.bib".
Proof.
  intros run.
  pose proof (create_accepted_bib_all_or_nothing example_load example_dump
                example_world (pystr "input.bib") (pystr "results.csv")
                (pystr "accepted.bib")) as H.
  cbv zeta in H. fold run in H.
  assert (Hrun : run.2 = Ok tt) by (vm_compute; reflexivity).
  rewrite Hrun in H. destruct H as (_ & _ & H).
  split; [done|]. split; [exact Hrun|]. by apply H.
Defined.

Lemma load_accepted_keys_ok rows :
  Forall well_formed_row rows ->
  exists keys,
    load_accepted_keys (rows, None) = Ok keys
    /\ forall k, k ∈ keys
         <-> Exists (fun row =>
               row !! pystr "citekey" = Some k
               /\ match row !! pystr "status" with
                  | Some (Some status) => py_lower status = pystr "accepted"
                  | _ => False
                  end) rows.
Proof.
  intros Hwf. destruct (foldl_add_accepted rows ∅ Hwf) as (keys & Hfold & Hk).
  exists keys. unfold load_accepted_keys. cbn [fst snd]. rewrite Hfold.
  split; [done|]. intros k. rewrite Hk, elem_of_empty. tauto.
Qed.

(** X18. The accepted keys do not depend on the order of the rows of
    the table nor on how often a row is repeated: two tables of rows with a
    status and a citekey that have the same rows give the same keys, and so
    the same accepted entries. *)
Theorem accepted_keys_ignore_order
    (rows rows' : list (gmap str (option str)))
    (entries : list (gmap str str)) :
  Forall well_formed_row rows ->
  (forall row, row ∈ rows <-> row ∈ rows') ->
  exists keys,
    load_accepted_keys (rows, None) = Ok keys
    /\ load_accepted_keys (rows', None) = Ok keys
    /\ filter_accepted keys entries = filter (selected rows) entries.
Proof.
  intros Hwf Hsame.
  assert (Hwf' : Forall well_formed_row rows').
  { apply Forall_forall. intros row Hin. apply Hsame in Hin.
    by apply (proj1 (Forall_forall _ _) Hwf). }
  destruct (load_accepted_keys_ok rows Hwf) as (keys & Hload & Hk).
  destruct (load_accepted_keys_ok rows' Hwf') as (keys' & Hload' & Hk').
  exists keys. split_and!; [done| |by apply filter_accepted_selected].
  rewrite Hload'. f_equal. apply set_eq. intros k.
  rewrite Hk, Hk', !Exists_exists.
  split; intros (row & Hin & H); exists row; (split; [by apply Hsame|done]).
Qed.

Lemma accepted_keys_ignore_order_witness :
  let rows' := reverse example_rows ++ example_rows in
  (Forall well_formed_row example_rows
   /\ (forall row, row ∈ example_rows <-> row ∈ rows'))
  /\ exists keys,
      load_accepted_keys (example_rows, None) = Ok keys
      /\ load_accepted_keys (rows', None) = Ok keys
      /\ filter_accepted keys example_bibliography
         = filter (selected example_rows) example_bibliography.
Proof.
  intros rows'.
  assert (H1 : Forall well_formed_row example_rows).
  { unfold example_rows, example_verdicts. cbn [fmap list_fmap].
    repeat (apply Forall_cons; split;
            [split; [eexists; vm_compute; reflexivity
                    | eexists; vm_compute; reflexivity] |]).
    apply Forall_nil. done. }
  assert (H2 : forall row, row ∈ example_rows <-> row ∈ rows').
  { intros row. subst rows'. rewrite elem_of_app, elem_of_reverse. tauto. }
  split; [by split|].
  exact (accepted_keys_ignore_order example_rows rows' example_bibliography
           H1 H2).
Defined.

Lemma foldl_add_accepted_raise rows e :
  foldl add_accepted (Raise e) rows = Raise e.
Proof. induction rows; [done|]. by cbn. Qed.


Lemma foldl_insert_lookup_ne {V} (k : str) (kvs : list (str * V)) :
  forall d : gmap str V,
  (k ∉ kvs.*1) ->
  foldl (fun d kv => <[kv.1 := kv.2]> d) d kvs !! k = d !! k.
Proof.
  induction kvs as [|[k' v] kvs IH]; intros d Hk; [done|].
  rewrite fmap_cons in Hk. apply not_elem_of_cons in Hk as [Hne Hk].
  cbn [foldl fst snd]. rewrite IH by done. by rewrite lookup_insert_ne.
Qed.

(** A name that is not in the header is no key of the rows. *)
Lemma row_dict_lookup_None names fields k :
  (k ∉ names) -> Csv.row_dict names fields !! k = None.
Proof.
  intros Hk. unfold Csv.row_dict.
  rewrite foldl_insert_lookup_ne; [apply lookup_empty|].
  intros Hin. apply Hk.
  apply list_elem_of_fmap in Hin as ([k' v] & -> & Hin).
  by apply elem_of_zip_l in Hin.
Qed.



(** X20. A table whose header has no status column makes the filter
    fail with [KeyError] on its first row, whatever the rows hold. *)
Theorem missing_status_column_raises
    (names fields : list str) (rest : list (gmap str (option str)))
    (reader_error : option PyExc) :
  (pystr "status" ∉ names) ->
  load_accepted_keys (Csv.row_dict names fields :: rest, reader_error)
  = Raise (KeyError (pystr "status")).
Proof.
  intros Hnames. unfold load_accepted_keys. cbn [fst snd foldl].
  unfold add_accepted at 2, getitem. cbn [bind].
  rewrite (row_dict_lookup_None names fields _ Hnames). cbn [bind].
  by rewrite foldl_add_accepted_raise.
Qed.

Lemma missing_status_column_raises_witness :
  let names := [pystr "citekey"; pystr "decision"] in
  (pystr "status" ∉ names)
  /\ load_accepted_keys
       (Csv.row_dict names [pystr "A"; pystr "accepted"] :: [], None)
     = Raise (KeyError (pystr "status")).
Proof.
  intros names.
  assert (H : pystr "status" ∉ names).
  { intros Hin. vm_compute in Hin.
    repeat (apply elem_of_cons in Hin as [Hin|Hin]; [discriminate|]).
    by apply elem_of_nil in Hin. }
  split; [exact H|].
  exact (missing_status_column_raises names [pystr "A"; pystr "accepted"] []
           None H).
Defined.

(** X21. The citekey of a row is looked at only when its status is
    accepted: a table in which no row is accepted gives no key, with or
    without a citekey column, and then no entry of the bibliography is
    kept. *)
Theorem no_accepted_row_selects_nothing
    (rows : list (gmap str (option str))) (entries : list (gmap str str)) :
  Forall (fun row =>
            exists status,
              row !! pystr "status" = Some (Some status)
              /\ py_lower status <> pystr "accepted") rows ->
  load_accepted_keys (rows, None) = Ok ∅
  /\ filter_accepted ∅ entries = [].
Proof.
  intros Hrows. split.
  - unfold load_accepted_keys. cbn [fst snd].
    assert (Hfold : foldl add_accepted (Ok ∅) rows = Ok ∅).
    { induction Hrows as [|row rows (status & Hst & Hne) _ IH]; [done|].
      cbn [foldl]. unfold add_accepted at 2, getitem. cbn [bind].
      rewrite Hst. cbn [bind]. by rewrite bool_decide_eq_false_2. }
    by rewrite Hfold.
  - unfold filter_accepted. induction entries as [|entry entries IH]; [done|].
    rewrite filter_cons_False; [exact IH|]. apply not_elem_of_empty.
Qed.

Lemma no_accepted_row_selects_nothing_witness :
  let rows :=
    [Csv.row_dict [pystr "status"] [pystr "rejected"];
     Csv.row_dict [pystr "status"] [pystr "Not-Sure"]] in
  Forall (fun row =>
            exists status,
              row !! pystr "status" = Some (Some status)
              /\ py_lower status <> pystr "accepted") rows
  /\ (load_accepted_keys (rows, None) = Ok ∅
      /\ filter_accepted ∅ example_bibliography = []).
Proof.
  intros rows.
  assert (H : Forall (fun row =>
                exists status,
                  row !! pystr "status" = Some (Some status)
                  /\ py_lower status <> pystr "accepted") rows).
  { repeat constructor; eexists; (split; [vm_compute; reflexivity|]);
      vm_compute; discriminate. }
  split; [exact H|].
  exact (no_accepted_row_selects_nothing rows example_bibliography H).
Defined.

(** ** The two tools together *)







Example accepted_by_example :
  filter (accepted_by example_verdicts) example_bibliography
  = [example_entry "A"; example_entry "C"].
Proof. vm_compute. reflexivity. Qed.

Lemma translate_newlines_nil s : translate_newlines s = [] -> s = [].
Proof.
  destruct s as [|c s]; [done|]. cbn [translate_newlines].
  destruct (c =? CR); [|done]. destruct s as [|c' s]; [done|].
  by destruct (c' =? LF).
Qed.

Section TwoToolsFacts.
Context (nd : char -> bool) {Service : Type}.
Context (chat : Service -> Request -> Service * Outcome).

(** X23. The two tools name an entry without an identifier
    differently: the classifier writes N/A in the citekey column, the
    filter looks for the empty string. Unless an entry of the classified
    bibliography has the empty string as its identifier, an entry without
    an identifier is never among the accepted entries, whatever its
    verdict is. *)
Theorem entry_without_identifier_never_accepted
    (entries others : list (gmap str str)) (criteria_content model_name : str)
    (c : Client Service) (entry : gmap str str) :
  entry !! pystr "ID" = None ->
  Forall (fun e : gmap str str => e !! pystr "ID" <> Some []) entries ->
  let results :=
    (process_entries nd Service chat entries criteria_content model_name c).2 in
  ~ accepted_by results entry
  /\ (entry ∉ filter (accepted_by results) others).
Proof.
  intros Hid Hkeys results.
  assert (Hnot : ~ accepted_by results entry).
  { unfold accepted_by. rewrite Exists_exists.
    intros (v & Hin & Hkey & _).
    unfold dict_get in Hkey. rewrite Hid in Hkey.
    apply translate_newlines_nil in Hkey.
    assert (Hck : citekey v ∈ citekey <$> results)
      by (apply list_elem_of_fmap; by exists v).
    subst results. rewrite process_entries_citekeys in Hck.
    apply list_elem_of_fmap in Hck as (e & He & Hin').
    rewrite Hkey in He.
    pose proof (proj1 (Forall_forall _ _) Hkeys e Hin') as Hne.
    cbv beta in Hne. unfold dict_get in He.
    destruct (e !! pystr "ID") as [k|]; [|vm_compute in He; discriminate].
    apply Hne. by rewrite <- He. }
  split; [exact Hnot|].
  rewrite list_elem_of_filter. by intros [H _].
Qed.
End TwoToolsFacts.

(** Two entries and a third without any field, which the service
    accepts. *)
Lemma entry_without_identifier_never_accepted_witness :
  let entries := [example_entry "A"; example_entry "B"; ∅] in
  let results :=
    (process_entries no_other_digits nat example_service entries
       (pystr "CI1: on topic") (pystr "gpt-4o-mini") (mkClient O [])).2 in
  ((∅ : gmap str str) !! pystr "ID" = None
   /\ Forall (fun e : gmap str str => e !! pystr "ID" <> Some []) entries)
  /\ status <$> results !! 2%nat = Some (pystr "accepted")
  /\ ~ accepted_by results ∅
  /\ ((∅ : gmap str str) ∉ filter (accepted_by results) entries).
Proof.
  intros entries results.
  assert (H1 : (∅ : gmap str str) !! pystr "ID" = None) by done.
  assert (H2 : Forall (fun e : gmap str str => e !! pystr "ID" <> Some [])
                 entries).
  { repeat constructor; vm_compute; discriminate. }
  split; [by split|]. split; [vm_compute; reflexivity|].
  exact (entry_without_identifier_never_accepted no_other_digits
           example_service entries entries (pystr "CI1: on topic")
           (pystr "gpt-4o-mini") (mkClient O []) ∅ H1 H2).
Defined.




Section EndToEnd.
Context (nd : char -> bool) {Service : Type}.
Context (chat : Service -> Request -> Service * Outcome).
Context (bibtex_load : str -> result (list (gmap str str))).
Context (bibtex_dump : list (gmap str str) -> str).
Context (MODEL_NAME : str).

End EndToEnd.


Example classify_then_filter_example :
  filter
    (fun entry =>
       Exists (verdict_accepts entry)
         (process_entries no_other_digits nat example_service
            example_bibliography (translate_newlines (pystr "CI1: on topic"))
            (pystr "gpt-4o-mini") (mkClient O [])).2)
    example_bibliography
  = [example_entry "C"; example_entry "D"].
Proof. vm_compute. reflexivity. Qed.

(** ** The report and the order of the verdicts *)

Lemma count_status_Permutation s results results' :
  results ≡ₚ results' -> count_status s results = count_status s results'.
Proof.
  intros Hp. unfold count_status. by rewrite Hp.
Qed.

Lemma count_criteria_Permutation c results results' :
  results ≡ₚ results' -> count_criteria c results = count_criteria c results'.
Proof.
  intros Hp. unfold count_criteria. by rewrite Hp.
Qed.

(** X25. The report does not depend on the order of the verdicts:
    verdicts with statuses among the three values, put in any other order,
    give the same log and the same result. *)
Theorem calculate_statistics_ignores_order (results results' : list Verdict) :
  Forall (fun v => status v ∈ status_values) results ->
  results ≡ₚ results' ->
  calculate_statistics results' = calculate_statistics results.
Proof.
  intros Hall Hp.
  assert (Hall' : Forall (fun v => status v ∈ status_values) results')
    by (by rewrite <- Hp).
  assert (Hdom : forall k, k ∈ status_values -> is_Some (initial_counts !! k)).
  { intros k Hk. rewrite initial_counts_lookup.
    rewrite bool_decide_eq_true_2 by done. eauto. }
  destruct (foldl_count_item_counts results initial_counts ∅ Hdom Hall)
    as (counts & cc & Hfold & Hcounts & Hcc).
  destruct (foldl_count_item_counts results' initial_counts ∅ Hdom Hall')
    as (counts' & cc' & Hfold' & Hcounts' & Hcc').
  assert (counts' = counts) as ->.
  { apply map_eq. intros k.
    by rewrite Hcounts, Hcounts', (count_status_Permutation k _ _ Hp). }
  assert (cc' = cc) as ->.
  { apply map_eq. intros k.
    by rewrite Hcc, Hcc', (count_criteria_Permutation k _ _ Hp). }
  unfold calculate_statistics. rewrite Hfold, Hfold'.
  by rewrite (Permutation_length Hp).
Qed.

Lemma calculate_statistics_ignores_order_witness :
  (Forall (fun v => status v ∈ status_values) report_verdicts
   /\ report_verdicts ≡ₚ reverse report_verdicts)
  /\ calculate_statistics (reverse report_verdicts)
     = calculate_statistics report_verdicts.
Proof.
  assert (H : report_verdicts ≡ₚ reverse report_verdicts)
    by (symmetry; apply reverse_Permutation).
  split; [split; [exact report_verdicts_statuses | exact H]|].
  exact (calculate_statistics_ignores_order report_verdicts
           (reverse report_verdicts) report_verdicts_statuses H).
Defined.
